(** * pyannote.database.util: a shallow embedding and its properties

    The file follows [src/pyannote/database/util.py].  Part I embeds the
    functions of the module, one Rocq module per group of functions; Part II
    states and proves their properties.

    Conventions.
    - A Python function that can raise returns a [result]; a function that
      mutates an argument in place returns the state of that argument after
      the call, also when the call raises.
    - A [dict] whose iteration order matters is an association list in
      insertion order ([PyDict]); a [dict] that is only looked up by key is a
      [gmap].
    - [float] is the IEEE 754 binary64 type of Rocq, which is Python's. *)

From Stdlib Require Import PrimFloat FloatOps SpecFloat Ascii String.
From stdpp Require Import gmap strings list sorting pretty.

#[local] Set Warnings "-register-all".
#[local] Open Scope string_scope.

(* ===================================================================== *)
(** * Part I: the embedding                                               *)
(* ===================================================================== *)

(** ** Python dicts in insertion order *)

Module PyDict.
Section dict.
Context {V : Type}.

(** [d.get(k)]: the value stored under [k], if any. *)
Fixpoint get (d : list (string * V)) (k : string) : option V :=
  match d with
  | [] => None
  | (k', v) :: rest => if decide (k' = k) then Some v else get rest k
  end.

(** [k in d] *)
Definition has (d : list (string * V)) (k : string) : bool :=
  match get d k with Some _ => true | None => false end.

(** [d[k] = v]: an existing key keeps its place, a new key goes last. *)
Fixpoint set (d : list (string * V)) (k : string) (v : V) : list (string * V) :=
  match d with
  | [] => [(k, v)]
  | (k', v') :: rest =>
      if decide (k' = k) then (k, v) :: rest else (k', v') :: set rest k v
  end.

(** [list(d.keys())] *)
Definition keys (d : list (string * V)) : list string := fst <$> d.
End dict.
End PyDict.

(** ** merge_dict_inplace *)

Module Merge.

(** The values of a nested configuration dictionary: scalars and nested
    dicts.  Of Python's scalars, [None], integers and strings are kept.

    A [value] is a tree: a dict holds its entries by value.  It stands for a
    Python dict in which no dict object is stored at two places, and which
    shares no dict object with [target].  Where one object is stored under
    two keys of [d], a nested merge under one of them shows under the other
    too; the statements below about nested items of [target] are about dicts
    without such sharing.  A target of scalars only assigns entries of [d]
    itself, and is not concerned. *)
Inductive scalar :=
| SNone
| SInt (n : Z)
| SStr (s : string).

Inductive value :=
| VScalar (s : scalar)
| VDict (items : list (string * value)).

Inductive exn :=
| RuntimeError (key : string) (old new : value)
    (* "Trying to overwrite key {k} ({d[k]}) with {v}" *)
| TypeError
| AttributeError
| KeyError (key : string).

Inductive result (A : Type) :=
| Ok (a : A)
| Raise (e : exn).
Arguments Ok {A} a.
Arguments Raise {A} e.

(** What a call leaves behind: the exception it raised, if any, and the
    state of the object [d] it was given to update. *)
Definition outcome : Type := option exn * value.

(** [k in d].  A dict tests its keys, a string tests for a substring,
    [None] and integers are not containers. *)
Definition contains (d : value) (k : string) : result bool :=
  match d with
  | VDict items => Ok (PyDict.has items k)
  | VScalar (SStr s) =>
      Ok (match String.index 0 k s with Some _ => true | None => false end)
  | VScalar _ => Raise TypeError
  end.

(** [d[k]] *)
Definition getitem (d : value) (k : string) : result value :=
  match d with
  | VDict items =>
      match PyDict.get items k with
      | Some v => Ok v
      | None => Raise (KeyError k)
      end
  | VScalar _ => Raise TypeError
  end.

(** [d[k] = v] *)
Definition setitem (d : value) (k : string) (v : value) : result value :=
  match d with
  | VDict items => Ok (VDict (PyDict.set items k v))
  | VScalar _ => Raise TypeError
  end.

(** The body of the loop of [merge_dict_inplace] for one item [(k, v)] of
    [target].  [rec v2] is the recursive call [merge_dict_inplace(v2, v)],
    made with the default policy.

    In the first branch [v2 = d.get(k, {})] is either the very object stored
    at [d[k]], so that what the recursive call does to it shows in [d], or,
    when [k] is not in [d], a new empty dict that [d] does not hold.

    The function also prints [k]; standard output is not modelled. *)
Definition merge_item (rec : value → outcome)
    (allow_overwrite overwrite_exception : bool)
    (d : value) (k : string) (v : value) : outcome :=
  match v with
  | VDict _ =>
      match d with
      | VDict items =>
          match PyDict.get items k with
          | Some v2 =>
              let '(e, v2') := rec v2 in (e, VDict (PyDict.set items k v2'))
          | None =>
              let '(e, _) := rec (VDict []) in (e, d)
          end
      | VScalar _ => (Some AttributeError, d)
      end
  | VScalar _ =>
      match contains d k with
      | Raise e => (Some e, d)
      | Ok k_in_d =>
          if k_in_d && negb allow_overwrite && overwrite_exception then
            match getitem d k with
            | Ok old => (Some (RuntimeError k old v), d)
            | Raise e => (Some e, d)
            end
          else if negb k_in_d || allow_overwrite then
            match setitem d k v with
            | Ok d' => (None, d')
            | Raise e => (Some e, d)
            end
          else (None, d)
      end
  end.

(** [for k, v in target.items(): ...], stopping at the first exception. *)
Definition merge_loop (body : value → string → value → outcome) :=
  fix loop (items : list (string * value)) (d : value) {struct items} : outcome :=
    match items with
    | [] => (None, d)
    | (k, v) :: rest =>
        match body d k v with
        | (Some e, d') => (Some e, d')
        | (None, d') => loop rest d'
        end
    end.

(** [merge_value target allow exc d] is [merge_dict_inplace(d, target, allow,
    exc)] for a [target] that is a dict; the recursion is on [target]. *)
Fixpoint merge_value (target : value) (allow_overwrite overwrite_exception : bool)
    (d : value) {struct target} : outcome :=
  match target with
  | VScalar _ => (None, d)
  | VDict items =>
      merge_loop
        (λ d k v, merge_item (merge_value v true false)
                    allow_overwrite overwrite_exception d k v)
        items d
  end.

Definition merge_dict_inplace (d : value) (target : list (string * value))
    (allow_overwrite overwrite_exception : bool) : outcome :=
  merge_value (VDict target) allow_overwrite overwrite_exception d.

(** [d.get(k)] on the object the call has updated. *)
Definition lookup (d : value) (k : string) : option value :=
  match d with
  | VDict items => PyDict.get items k
  | VScalar _ => None
  end.

(** [target] holds nothing but scalars. *)
Definition flat (target : list (string * value)) : Prop :=
  Forall (λ kv, ∃ s, kv.2 = VScalar s) target.

(** [target] holds nothing but nested dicts. *)
Definition all_nested (target : list (string * value)) : Prop :=
  Forall (λ kv, ∃ sub, kv.2 = VDict sub) target.

(** [d.update(target)]: every item of [target] assigned in turn. *)
Definition update (d target : list (string * value)) : list (string * value) :=
  foldl (λ acc kv, PyDict.set acc kv.1 kv.2) d target.

(** [d.setdefault(k, v)] for every item of [target] in turn: an item is
    assigned when its key is not in [d] yet. *)
Definition add_missing (d target : list (string * value)) : list (string * value) :=
  foldl (λ acc kv, if PyDict.has acc kv.1 then acc else PyDict.set acc kv.1 kv.2) d target.

(** Sample dicts. *)
Definition sample_d : list (string * value) :=
  [("a", VScalar (SInt 1)); ("n", VDict [("x", VScalar (SInt 1))])].

End Merge.

(** ** The loaders of tabular formats: load_rttm, load_stm *)

Module Loaders.

(** [pyannote.core.Segment(start, end)] *)
Record Segment (T : Type) := mkSegment { seg_start : T; seg_end : T }.
Arguments mkSegment {T} _ _.
Arguments seg_start {T} _.
Arguments seg_end {T} _.

(** [pyannote.core.Annotation], by the interface the loaders use: the uri
    it was created with and the assignments [annotation[segment, track] =
    label] made to it, oldest first.  An assignment to a key assigned
    before would supersede the older one. *)
Record Annotation := mkAnnotation {
  uri : option string;
  tracks : list (Segment float * nat * string)
}.

(** [annotation[segment, track] = label] *)
Definition setitem (annotation : Annotation)
    (segment : Segment float) (track : nat) (label : string) : Annotation :=
  mkAnnotation (uri annotation) (tracks annotation ++ [(segment, track, label)]).

Definition track_of (entry : Segment float * nat * string) : nat := entry.1.2.

(** A pandas [DataFrame]: its rows in order, each with its index label. *)
Abbreviation DataFrame R := (list (nat * R)).

(** [pd.read_csv(file, names=..., delim_whitespace=True)] parses the file
    into typed rows; the parser is pandas' and [rows] is its result, in file
    order.  No index column is asked for, so the table has a [RangeIndex]:
    the row at position [i] of the file has index label [i]. *)
Definition read_csv {R : Type} (rows : list R) : DataFrame R :=
  imap (λ i row, (i, row)) rows.

(** Python compares strings by code point. *)
Definition str_le (x y : string) : Prop := String.leb x y = true.
#[global] Instance str_le_dec x y : Decision (str_le x y).
Proof. unfold str_le. apply _. Defined.

(** [data.groupby("uri")]: one group per value of the uri column, in sorted
    order of the values; rows whose uri is missing (NaN) are in no group;
    inside a group the rows keep their order and their index labels. *)
Definition groupby_uri {R : Type} (uri_of : R → option string)
    (data : DataFrame R) : list (string * DataFrame R) :=
  (λ u, (u, filter (λ ir, uri_of ir.2 = Some u) data))
    <$> merge_sort str_le (remove_dups (omap (λ ir, uri_of ir.2) data)).

(** [turns.iterrows()] yields [(index label, row)]. *)
Definition iterrows {R : Type} (turns : DataFrame R) : list (nat * R) := turns.

(** The columns of an RTTM line that [load_rttm] reads; the columns it names
    NA2 to NA6 are parsed and never looked at.  With [keep_default_na=True] a
    uri spelled as one of pandas' markers of a missing value is [None]. *)
Record rttm_row := mk_rttm {
  rttm_type : string;
  rttm_uri : option string;
  rttm_start : float;
  rttm_duration : float;
  rttm_speaker : string
}.

Definition load_rttm (rows : list rttm_row) (keep_type : string)
    : list (string * Annotation) :=
  let data := read_csv rows in
  foldl (λ annotations '(uri, turns),
           let annotation :=
             foldl (λ annotation '(i, turn),
                      if decide (rttm_type turn ≠ keep_type) then annotation
                      else
                        let segment :=
                          mkSegment (rttm_start turn)
                                    (rttm_start turn + rttm_duration turn)%float in
                        setitem annotation segment i (rttm_speaker turn))
                   (mkAnnotation (Some uri) []) (iterrows turns) in
           PyDict.set annotations uri annotation)
        [] (groupby_uri rttm_uri data).

(** The columns 0, 2, 3 and 4 of an STM line. *)
Record stm_row := mk_stm {
  stm_uri : option string;
  stm_speaker : string;
  stm_start : float;
  stm_end : float
}.

Definition load_stm (rows : list stm_row) : list (string * Annotation) :=
  let data := read_csv rows in
  foldl (λ annotations '(uri, turns),
           let annotation :=
             foldl (λ annotation '(i, turn),
                      let segment := mkSegment (stm_start turn) (stm_end turn) in
                      setitem annotation segment i (stm_speaker turn))
                   (mkAnnotation (Some uri) []) (iterrows turns) in
           PyDict.set annotations uri annotation)
        [] (groupby_uri stm_uri data).

(** The entry that [load_stm] makes for a row and its index label. *)
Definition stm_entry (ir : nat * stm_row) : Segment float * nat * string :=
  (mkSegment (stm_start ir.2) (stm_end ir.2), ir.1, stm_speaker ir.2).

(** The entry that [load_rttm] makes for a row and its index label. *)
Definition rttm_entry (ir : nat * rttm_row) : Segment float * nat * string :=
  (mkSegment (rttm_start ir.2) (rttm_start ir.2 + rttm_duration ir.2)%float,
   ir.1, rttm_speaker ir.2).

(** The rows of a table with a given uri. *)
Definition stm_group (rows : list stm_row) (u : string) : DataFrame stm_row :=
  filter (λ ir, stm_uri ir.2 = Some u) (read_csv rows).

Definition rttm_group (rows : list rttm_row) (u : string) : DataFrame rttm_row :=
  filter (λ ir, rttm_uri ir.2 = Some u) (read_csv rows).

(** Sample tables. *)
Definition three_turns : list stm_row :=
  [mk_stm (Some "A") "alice" 0 1; mk_stm (Some "B") "bob" 1 2;
   mk_stm (Some "A") "carol" 2 3]%float.

Definition three_turns_A : Annotation :=
  mkAnnotation (Some "A")
    [(mkSegment 0%float 1%float, 0, "alice"); (mkSegment 2%float 3%float, 2, "carol")].

Definition two_lines : list rttm_row :=
  [mk_rttm "SPEAKER" (Some "A") 0 1.5 "alice"; mk_rttm "LEXEME" (Some "B") 2 1 "bob"]%float.

(** *** load_mdtm, load_uem, load_lab *)

(** The columns of an MDTM line that [load_mdtm] reads.  The file is read
    with [keep_default_na=False], so that no spelling of the uri is taken for
    a missing value: the uri is always a string. *)
Record mdtm_row := mk_mdtm {
  mdtm_uri : string;
  mdtm_start : float;
  mdtm_duration : float;
  mdtm_speaker : string
}.

Definition load_mdtm (rows : list mdtm_row) : list (string * Annotation) :=
  let data := read_csv rows in
  foldl (λ annotations '(uri, turns),
           let annotation :=
             foldl (λ annotation '(i, turn),
                      let segment :=
                        mkSegment (mdtm_start turn)
                                  (mdtm_start turn + mdtm_duration turn)%float in
                      setitem annotation segment i (mdtm_speaker turn))
                   (mkAnnotation (Some uri) []) (iterrows turns) in
           PyDict.set annotations uri annotation)
        [] (groupby_uri (λ turn, Some (mdtm_uri turn)) data).

(** The entry that [load_mdtm] makes for a row and its index label. *)
Definition mdtm_entry (ir : nat * mdtm_row) : Segment float * nat * string :=
  (mkSegment (mdtm_start ir.2) (mdtm_start ir.2 + mdtm_duration ir.2)%float,
   ir.1, mdtm_speaker ir.2).

(** [pyannote.core.Timeline(segments=..., uri=...)], by the arguments it is
    built from. *)
Record Timeline := mkTimeline {
  segments : list (Segment float);
  timeline_uri : option string
}.

(** The columns of a UEM line that [load_uem] reads. *)
Record uem_row := mk_uem {
  uem_uri : option string;
  uem_start : float;
  uem_end : float
}.

Definition load_uem (rows : list uem_row) : list (string * Timeline) :=
  let data := read_csv rows in
  foldl (λ timelines '(uri, parts),
           let segments :=
             (λ '(i, part), mkSegment (uem_start part) (uem_end part))
               <$> iterrows parts in
           PyDict.set timelines uri (mkTimeline segments (Some uri)))
        [] (groupby_uri uem_uri data).

(** The columns of a LAB line. *)
Record lab_row := mk_lab {
  lab_start : float;
  lab_end : float;
  lab_label : string
}.

Definition load_lab (rows : list lab_row) (uri : option string) : Annotation :=
  let data := read_csv rows in
  foldl (λ annotation '(i, turn),
           let segment := mkSegment (lab_start turn) (lab_end turn) in
           setitem annotation segment i (lab_label turn))
        (mkAnnotation uri []) (iterrows data).

(** The entry that [load_lab] makes for a row and its index label. *)
Definition lab_entry (ir : nat * lab_row) : Segment float * nat * string :=
  (mkSegment (lab_start ir.2) (lab_end ir.2), ir.1, lab_label ir.2).

(** The number of entries of all the annotations of a dict. *)
Definition total_tracks (annotations : list (string * Annotation)) : nat :=
  sum_list_with (λ ua, length (tracks ua.2)) annotations.

(** The uris of the groups of a table, in the order of the groups. *)
Definition group_keys {R : Type} (uri_of : R → option string) (rows : list R)
    : list string :=
  merge_sort str_le (remove_dups (omap (λ ir, uri_of ir.2) (read_csv rows))).

(** The segment that [load_uem] makes for a row. *)
Definition uem_segment (part : uem_row) : Segment float :=
  mkSegment (uem_start part) (uem_end part).

(** A row that [load_rttm] keeps: it has a uri and the kept type. *)
Definition rttm_kept (keep_type : string) (turn : rttm_row) : Prop :=
  rttm_type turn = keep_type ∧ is_Some (rttm_uri turn).

#[global] Instance rttm_kept_dec keep_type turn : Decision (rttm_kept keep_type turn).
Proof. unfold rttm_kept. apply _. Defined.

(** More sample tables. *)
Definition two_files : list uem_row :=
  [mk_uem (Some "A") 0 10; mk_uem (Some "B") 0 5; mk_uem (Some "A") 20 30]%float.

Definition two_recordings : list mdtm_row :=
  [mk_mdtm "B" 0 1 "bob"; mk_mdtm "A" 1 2 "alice"; mk_mdtm "B" 3 1 "bob"]%float.

Definition two_labels : list lab_row :=
  [mk_lab 0 1 "speech"; mk_lab 1 2 "noise"]%float.

End Loaders.

(** ** load_lst *)

Module Lst.

Definition newline : ascii := ascii_of_nat 10.

(** [fp.readlines()] on a file opened in text mode: the text is cut after
    every newline, and each line keeps its newline.  [text] is the content of
    the file as Python reads it, line ends already translated. *)
Fixpoint readlines (text : string) : list string :=
  match text with
  | EmptyString => []
  | String c rest =>
      if decide (c = newline) then String c EmptyString :: readlines rest
      else
        match readlines rest with
        | [] => [String c EmptyString]
        | line :: lines => String c line :: lines
        end
  end.

(** [c.isspace()] for a character below 256: tab to carriage return, the
    four separators 28 to 31, space, next line (133) and no-break space
    (160). *)
Definition isspace (c : ascii) : bool :=
  let n := nat_of_ascii c in
  ((9 <=? n) && (n <=? 13) || (28 <=? n) && (n <=? 32)
   || (n =? 133) || (n =? 160))%nat.

Fixpoint lstrip (s : string) : string :=
  match s with
  | EmptyString => EmptyString
  | String c rest => if isspace c then lstrip rest else s
  end.

Fixpoint rstrip (s : string) : string :=
  match s with
  | EmptyString => EmptyString
  | String c rest =>
      match rstrip rest with
      | EmptyString => if isspace c then EmptyString else String c EmptyString
      | kept => String c kept
      end
  end.

(** [line.strip()] *)
Definition strip (s : string) : string := rstrip (lstrip s).

Definition load_lst (text : string) : list string :=
  strip <$> readlines text.

(** A line of nothing but whitespace, its newline included. *)
Fixpoint blank (s : string) : bool :=
  match s with
  | EmptyString => true
  | String c rest => isspace c && blank rest
  end.

(** What the specification says of [load_lst]: the non-empty trimmed lines
    of the file, in order. *)
Definition nonempty_trimmed_lines (text : string) : list string :=
  filter (λ line, line ≠ EmptyString) (strip <$> readlines text).

(** The text of a line end, and a sample file: the line [a] and an empty line. *)
Definition nl : string := String newline EmptyString.

Definition trailing_blank_line : string := ("a" ++ nl ++ nl)%string.

(** The number of newline characters of a text. *)
Fixpoint count_newlines (text : string) : nat :=
  match text with
  | EmptyString => 0
  | String c rest => (if decide (c = newline) then 1 else 0) + count_newlines rest
  end.

(** The text is not empty and its last character is not a newline: its last
    line is not terminated. *)
Fixpoint unterminated (text : string) : bool :=
  match text with
  | EmptyString => false
  | String c EmptyString => negb (bool_decide (c = newline))
  | String _ rest => unterminated rest
  end.

(** The characters of a string. *)
Fixpoint chars (s : string) : list ascii :=
  match s with
  | EmptyString => []
  | String c rest => c :: chars rest
  end.

End Lst.

(** ** Item records: get_unique_identifier, get_annotated, LabelMapper *)

Module Items.
Import Loaders.

(** The values an item record holds.  A record is a Python [dict] with
    string keys; it is only looked up by key. *)
Inductive pyval :=
| PyNone
| PyStr (s : string)
| PyInt (n : Z)
| PyFloat (x : float)
| PyTimeline (segments : list (Segment pyval)) (uri : option string)
| PyAnnotation (a : Annotation).

Abbreviation item := (gmap string pyval).

Inductive exn :=
| KeyError (key : string)
| TypeError
| AttributeError
| ValueError (msg : string)
| ImportError
| OverflowError.

Inductive result (A : Type) :=
| Ok (a : A)
| Raise (e : exn).
Arguments Ok {A} a.
Arguments Raise {A} e.

Definition bind {A B : Type} (r : result A) (f : A → result B) : result B :=
  match r with
  | Ok a => f a
  | Raise e => Raise e
  end.
Notation "x ← r ; k" := (bind r (λ x, k))
  (at level 20, r at level 100, k at level 200, right associativity,
   only parsing).

(** [item[key]] *)
Definition getitem (current_file : item) (key : string) : result pyval :=
  match current_file !! key with
  | Some v => Ok v
  | None => Raise (KeyError key)
  end.

(** [item.get(key, None)] *)
Definition get (current_file : item) (key : string) : pyval :=
  default PyNone (current_file !! key).

(** [key in item] *)
Definition has (current_file : item) (key : string) : bool :=
  bool_decide (is_Some (current_file !! key)).

Definition is_None (v : pyval) : bool :=
  match v with PyNone => true | _ => false end.

Definition dquote : string := String (ascii_of_nat 34) EmptyString.

(** *** get_unique_identifier *)

Section identifier.
(** [str(v)] for the values whose text the interpreter or pyannote.core
    decides: floats, timelines, annotations. *)
Variable str_object : pyval → string.

(** [f"{v}"] *)
Definition py_str (v : pyval) : string :=
  match v with
  | PyNone => "None"
  | PyStr s => s
  | PyInt n => pretty n
  | _ => str_object v
  end.

(** [f"{v:d}"]: only integers have a decimal format. *)
Definition format_d (v : pyval) : result string :=
  match v with
  | PyInt n => Ok (pretty n)
  | PyStr _ => Raise (ValueError "Unknown format code 'd' for object of type 'str'")
  | PyFloat _ => Raise (ValueError "Unknown format code 'd' for object of type 'float'")
  | _ => Raise TypeError
  end.

(** [s += v] for a string [s]: [v] has to be a string. *)
Definition str_iadd (s : string) (v : pyval) : result string :=
  match v with
  | PyStr s' => Ok (s ++ s')
  | _ => Raise TypeError
  end.

Definition get_unique_identifier (current_file : item) : result string :=
  let IDENTIFIER := "" in
  let database := get current_file "database" in
  let IDENTIFIER :=
    if negb (is_None database) then IDENTIFIER ++ (py_str database ++ "/")
    else IDENTIFIER in
  uri ← getitem current_file "uri";
  IDENTIFIER ← str_iadd IDENTIFIER uri;
  let channel := get current_file "channel" in
  if negb (is_None channel) then
    c ← format_d channel;
    Ok (IDENTIFIER ++ ("_" ++ c))
  else Ok IDENTIFIER.

(** The identifier as the specification spells it: prefix, uri, suffix. *)
Definition database_prefix (current_file : item) : string :=
  match current_file !! "database" with
  | Some PyNone | None => ""
  | Some database => py_str database ++ "/"
  end.

Definition channel_suffix (current_file : item) : string :=
  match current_file !! "channel" with
  | Some (PyInt n) => "_" ++ pretty n
  | _ => ""
  end.

(** The channel is absent, [None] or an integer. *)
Definition channel_ok (current_file : item) : Prop :=
  match current_file !! "channel" with
  | None | Some PyNone | Some (PyInt _) => True
  | Some _ => False
  end.
End identifier.

(** *** get_annotated *)

Definition warning_duration : string :=
  dquote ++ "annotated" ++ dquote ++ " was approximated by [0, audio duration].".

Definition warning_extent : string :=
  dquote ++ "annotated" ++ dquote ++ " was approximated by " ++ dquote
  ++ "annotation" ++ dquote ++ " extent. Please provide " ++ dquote
  ++ "annotated" ++ dquote ++ " directly, or at the very least, use a "
  ++ dquote ++ "duration" ++ dquote ++ " preprocessor.".

(** The part of pyannote.core that [get_annotated] runs when it builds a
    timeline: a segment is empty, and false as a condition, unless its end is
    beyond its start by more than [SEGMENT_PRECISION], and a timeline keeps of
    the segments it is given those that are not empty. *)

(** [SEGMENT_PRECISION = 1e-6], the float nearest to it. *)
Definition SEGMENT_PRECISION : float := 0x1.0c6f7a0b5ed8dp-20%float.

(** [float(n)]: the float nearest to an integer; an integer beyond the floats
    is an OverflowError. *)
Definition float_of_int (n : Z) : result float :=
  let x := SF2Prim (binary_normalize prec emax n 0 false) in
  if is_infinity x then Raise OverflowError else Ok x.

(** [a - b]: defined on numbers, an integer going to float when the other
    number is a float. *)
Definition py_sub (a b : pyval) : result pyval :=
  match a, b with
  | PyInt m, PyInt n => Ok (PyInt (m - n))
  | PyFloat x, PyFloat y => Ok (PyFloat (x - y))
  | PyFloat x, PyInt n => y ← float_of_int n; Ok (PyFloat (x - y))
  | PyInt m, PyFloat y => x ← float_of_int m; Ok (PyFloat (x - y))
  | _, _ => Raise TypeError
  end.

(** [v > SEGMENT_PRECISION]; an integer is compared by its value. *)
Definition gt_precision (v : pyval) : result bool :=
  match v with
  | PyInt n => Ok (0 <? n)%Z
  | PyFloat x => Ok (SEGMENT_PRECISION <? x)%float
  | _ => Raise TypeError
  end.

(** A number: an integer or a float. *)
Definition is_number (v : pyval) : Prop :=
  (∃ x, v = PyFloat x) ∨ (∃ n, v = PyInt n).

(** [bool(segment)]: [(segment.end - segment.start) > SEGMENT_PRECISION]. *)
Definition segment_bool (segment : Segment pyval) : result bool :=
  difference ← py_sub (seg_end segment) (seg_start segment);
  gt_precision difference.

(** [Timeline([segment])]: the timeline of the segment, or of no segment when
    the segment is empty. *)
Definition Timeline_of (segment : Segment pyval) : result pyval :=
  keep ← segment_bool segment;
  Ok (PyTimeline (if keep then [segment] else []) None).

Section annotated.
(** [annotation.get_timeline().extent()] of pyannote.core: the smallest
    segment that covers the segments of the annotation. *)
Variable extent : Annotation → Segment float.

Definition get_timeline_extent (v : pyval) : result (Segment pyval) :=
  match v with
  | PyAnnotation a =>
      let e := extent a in
      Ok (mkSegment (PyFloat (seg_start e)) (PyFloat (seg_end e)))
  | _ => Raise AttributeError
  end.

(** The value returned and the warnings given, in order. *)
Definition get_annotated (current_file : item) : result (pyval * list string) :=
  if has current_file "annotated" then
    annotated ← getitem current_file "annotated";
    Ok (annotated, [])
  else
    let from_annotation :=
      annotation ← getitem current_file "annotation";
      extent ← get_timeline_extent annotation;
      annotated ← Timeline_of extent;
      Ok (annotated, [warning_extent]) in
    if has current_file "duration" then
      match getitem current_file "duration" with
      | Raise ImportError => from_annotation
      | Raise e => Raise e
      | Ok duration =>
          annotated ← Timeline_of (mkSegment (PyInt 0) duration);
          Ok (annotated, [warning_duration])
      end
    else from_annotation.
End annotated.

(** *** LabelMapper *)

Record LabelMapper := mkLabelMapper {
  mapping : gmap string string;
  keep_missing : bool
}.

(** The calls made on the annotation of the item. *)
Inductive call :=
| Call_labels
| Call_rename_labels (mapping : gmap string string).

(** [annotation.labels()] of pyannote.core: the labels in use, each once. *)
Definition labels (v : pyval) : result (list string) :=
  match v with
  | PyAnnotation a => Ok (merge_sort str_le (remove_dups ((λ e, e.2) <$> tracks a)))
  | _ => Raise AttributeError
  end.

(** [annotation.rename_labels(mapping=mapping)] of pyannote.core: a copy of
    the annotation where a label with an entry in [mapping] is replaced by
    it and any other label is kept; the annotation itself is left as it
    is. *)
Definition rename_labels (v : pyval) (mapping : gmap string string) : result pyval :=
  match v with
  | PyAnnotation a =>
      Ok (PyAnnotation
            (mkAnnotation (uri a)
               ((λ e, (e.1, default e.2 (mapping !! e.2))) <$> tracks a)))
  | _ => Raise AttributeError
  end.

(** A label of the annotation that the mapping has no entry for. *)
Definition unmapped (mapping : gmap string string) (a : Annotation) (label : string) : Prop :=
  label ∈ (tracks a).*2 ∧ mapping !! label = None.

(** An element of a set, the first in the order of [elements]. *)
Definition first_element (s : gset string) : string :=
  default EmptyString (head (elements s)).

Definition no_mapping_msg (label : string) : string :=
  "No mapping found for label " ++ dquote ++ label ++ dquote ++ ". Set "
  ++ dquote ++ "keep_missing" ++ dquote
  ++ " to True to keep labels with no mapping.".

(** A call of the mapper: what it returns or raises, the item as the call
    leaves it, and the calls it made on the annotation, oldest first. *)
Record run := mkRun {
  returned : result pyval;
  file_after : item;
  calls : list call
}.

Section mapper.
(** [s.pop()] on a set: some element of [s], which one is not specified. *)
Variable set_pop : gset string → string.

Definition LabelMapper_call (self : LabelMapper) (current_file : item) : run :=
  let rename (done : list call) :=
    match getitem current_file "annotation" with
    | Raise e => mkRun (Raise e) current_file done
    | Ok annotation =>
        mkRun (rename_labels annotation (mapping self)) current_file
              (done ++ [Call_rename_labels (mapping self)])
    end in
  if negb (keep_missing self) then
    match getitem current_file "annotation" with
    | Raise e => mkRun (Raise e) current_file []
    | Ok annotation =>
        match labels annotation with
        | Raise e => mkRun (Raise e) current_file [Call_labels]
        | Ok ls =>
            let missing : gset string := list_to_set ls ∖ dom (mapping self) in
            if bool_decide (missing ≠ ∅) && negb (keep_missing self) then
              let label := set_pop missing in
              mkRun (Raise (ValueError (no_mapping_msg label))) current_file
                    [Call_labels]
            else rename [Call_labels]
        end
    end
  else rename [].
End mapper.

(** A sample annotation with two labels. *)
Definition two_speakers : Annotation :=
  mkAnnotation (Some "X")
    [(mkSegment 0%float 1%float, 0, "A"); (mkSegment 1%float 2%float, 1, "B")].

(** *** get_label_identifier *)

(** [v + s] for a string [s]: [v] has to be a string. *)
Definition str_add (v : pyval) (s : string) : result string :=
  match v with
  | PyStr d => Ok (d ++ s)
  | _ => Raise TypeError
  end.

(** The character that separates the database from the label. *)
Definition bar : ascii := ascii_of_nat 124.

(** [label] is a string, as the docstring has it. *)
Definition get_label_identifier (label : string) (current_file : item) : result string :=
  database ← getitem current_file "database";
  prefix ← str_add database "|";
  Ok (prefix ++ label).

End Items.

(** ** load_mapping *)

Module Mapping.
Import Lst Items.

(** [s.split()]: the maximal runs of characters that are not whitespace, in
    order.  [split_from s] reads [s] from a position on: the token that
    starts at the position, empty when a whitespace character or the end is
    there, and the tokens after it. *)
Definition push (token : string) (tokens : list string) : list string :=
  match token with
  | EmptyString => tokens
  | _ => token :: tokens
  end.

Fixpoint split_from (s : string) : string * list string :=
  match s with
  | EmptyString => (EmptyString, [])
  | String c rest =>
      let '(token, tokens) := split_from rest in
      if isspace c then (EmptyString, push token tokens)
      else (String c token, tokens)
  end.

Definition split (s : string) : list string :=
  let '(token, tokens) := split_from s in push token tokens.

(** The message of [key, value, *left = tokens] on fewer than two tokens. *)
Definition unpack_msg (tokens : list string) : string :=
  "not enough values to unpack (expected at least 2, got "
  ++ pretty (length tokens) ++ ")".

(** [for line in lines: ...] on the dict [mapping]. *)
Fixpoint load_mapping_loop (lines : list string) (mapping : list (string * string))
    : result (list (string * string)) :=
  match lines with
  | [] => Ok mapping
  | line :: lines =>
      match split (strip line) with
      | key :: value :: _ => load_mapping_loop lines (PyDict.set mapping key value)
      | tokens => Raise (ValueError (unpack_msg tokens))
      end
  end.

Definition load_mapping (text : string) : result (list (string * string)) :=
  let lines := readlines text in
  let mapping := [] in
  load_mapping_loop lines mapping.

(** A token: not empty, and without whitespace. *)
Definition good_token (token : string) : Prop :=
  token ≠ EmptyString ∧ Forall (λ c, isspace c = false) (chars token).

(** A line with at least two tokens. *)
Definition has_pair (line : string) : Prop :=
  ∃ key value others, split (strip line) = key :: value :: others.

(** A sample file: two lines for the key [a], the second with a third field. *)
Definition sample_mapping : string :=
  "a x" ++ nl ++ "b y" ++ nl ++ " a  z ignored" ++ nl.

End Mapping.


(* ===================================================================== *)
(** * Part II: properties                                                 *)
(* ===================================================================== *)

#[local] Open Scope list_scope.

(** ** Dicts in insertion order *)

Module PyDictFacts.
Section facts.
Context {V : Type}.
Implicit Types (d : list (string * V)) (k : string) (v : V).

Lemma get_set_eq d k v : PyDict.get (PyDict.set d k v) k = Some v.
Proof.
  induction d as [|[k' v'] d IH]; simpl.
  - by rewrite decide_True.
  - destruct (decide (k' = k)) as [->|Hne]; simpl.
    + by rewrite decide_True.
    + by rewrite decide_False.
Qed.

Lemma get_set_ne d k k' v : k ≠ k' → PyDict.get (PyDict.set d k v) k' = PyDict.get d k'.
Proof.
  intros Hne. induction d as [|[k0 v0] d IH]; simpl.
  - by rewrite decide_False.
  - destruct (decide (k0 = k)) as [->|Hne0]; simpl.
    + by rewrite !decide_False.
    + by rewrite IH.
Qed.

Lemma has_true d k : PyDict.has d k = true ↔ is_Some (PyDict.get d k).
Proof.
  unfold PyDict.has. destruct (PyDict.get d k); split; intros H; try done.
Qed.

End facts.
End PyDictFacts.

(** ** merge_dict_inplace *)

Module MergeFacts.
Import Merge PyDictFacts.

(** Induction on a value and on the values nested in it. *)
Lemma value_nested_ind (P : value → Prop) :
  (∀ s, P (VScalar s)) →
  (∀ items, Forall (λ kv, P kv.2) items → P (VDict items)) →
  ∀ v, P v.
Proof.
  intros Hscalar Hdict. fix IH 1. intros [s|items].
  - apply Hscalar.
  - apply Hdict. induction items as [|[k v] items IHitems]; constructor.
    + apply IH.
    + apply IHitems.
Qed.

#[local] Arguments merge_value : simpl never.
#[local] Arguments merge_dict_inplace : simpl never.

Lemma NoDup_keys_cons (target : list (string * value)) k v :
  NoDup (PyDict.keys ((k, v) :: target))
  ↔ (k ∉ PyDict.keys target) ∧ NoDup (PyDict.keys target).
Proof. unfold PyDict.keys. rewrite fmap_cons. apply NoDup_cons. Qed.

Lemma not_elem_of_keys_cons (target : list (string * value)) k k' v :
  k' ∉ PyDict.keys ((k, v) :: target) ↔ k' ≠ k ∧ k' ∉ PyDict.keys target.
Proof. unfold PyDict.keys. rewrite fmap_cons. apply not_elem_of_cons. Qed.

(** The equations of the loop. *)
Lemma merge_nil d allow exc : merge_dict_inplace d [] allow exc = (None, d).
Proof. reflexivity. Qed.

Lemma merge_cons d k v rest allow exc :
  merge_dict_inplace d ((k, v) :: rest) allow exc
  = match merge_item (merge_value v true false) allow exc d k v with
    | (Some e, d') => (Some e, d')
    | (None, d') => merge_dict_inplace d' rest allow exc
    end.
Proof. reflexivity. Qed.

Lemma merge_value_dict sub allow exc d :
  merge_value (VDict sub) allow exc d = merge_dict_inplace d sub allow exc.
Proof. reflexivity. Qed.

(** One item handled on a dict leaves a dict, and leaves every other key as
    it was. *)
Lemma merge_item_dict rec allow exc items k v :
  ∃ items', (merge_item rec allow exc (VDict items) k v).2 = VDict items'
            ∧ ∀ k', k ≠ k' → PyDict.get items' k' = PyDict.get items k'.
Proof.
  destruct v as [s|sub]; simpl.
  - destruct (PyDict.has items k && negb allow && exc).
    + unfold PyDict.has. destruct (PyDict.get items k); simpl; by eexists.
    + destruct (negb (PyDict.has items k) || allow); simpl.
      * eexists; split; [done|]. intros. by apply get_set_ne.
      * by eexists.
  - destruct (PyDict.get items k) as [v2|].
    + destruct (rec v2) as [e v2']; simpl.
      eexists; split; [done|]. intros. by apply get_set_ne.
    + destruct (rec (VDict [])) as [e ?]; simpl. by eexists.
Qed.

(** So does a whole call, for the keys that [target] does not have. *)
Lemma merge_dict_other_keys target : ∀ items allow exc,
  ∃ items', (merge_dict_inplace (VDict items) target allow exc).2 = VDict items'
            ∧ ∀ k, k ∉ PyDict.keys target → PyDict.get items' k = PyDict.get items k.
Proof.
  induction target as [|[k v] rest IH]; intros items allow exc.
  - rewrite merge_nil. by eexists.
  - rewrite merge_cons.
    destruct (merge_item_dict (merge_value v true false) allow exc items k v)
      as (items1 & Hst & Hother).
    destruct (merge_item _ _ _ _ _ _) as [[e|] d1]; simpl in Hst; subst d1.
    + eexists; split; [done|]. intros k' Hk'. apply Hother.
      apply not_elem_of_keys_cons in Hk' as [Hne _]. congruence.
    + destruct (IH items1 allow exc) as (items' & Hst' & Hother').
      eexists; split; [done|]. intros k' Hk'.
      apply not_elem_of_keys_cons in Hk' as [Hne Hrest].
      rewrite Hother' by done. apply Hother. congruence.
Qed.

(** What the loop does with a scalar item when [d] is a dict. *)
Lemma merge_item_scalar rec allow exc items k s :
  merge_item rec allow exc (VDict items) k (VScalar s)
  = match PyDict.get items k with
    | Some old =>
        if negb allow && exc then (Some (RuntimeError k old (VScalar s)), VDict items)
        else if allow then (None, VDict (PyDict.set items k (VScalar s)))
        else (None, VDict items)
    | None => (None, VDict (PyDict.set items k (VScalar s)))
    end.
Proof.
  simpl. unfold PyDict.has. destruct (PyDict.get items k) as [old|]; simpl.
  - by destruct allow, exc.
  - by destruct allow.
Qed.

(** With [allow_overwrite] set, no RuntimeError is raised, at any depth. *)
Lemma allow_never_RuntimeError target : ∀ exc d key old new,
  (merge_value target true exc d).1 ≠ Some (RuntimeError key old new).
Proof.
  induction target as [s|target IH] using value_nested_ind; intros exc d key old new.
  - done.
  - rewrite merge_value_dict. revert d.
    induction IH as [|[k v] rest Hv _ IHrest]; intros d; [done|].
    rewrite merge_cons. simpl in Hv.
    destruct (merge_item _ _ _ _ _ _) as [[e|] d1] eqn:Hitem; [|apply IHrest].
    simpl. intros [= ->]. destruct v as [s|sub].
    + unfold merge_item in Hitem. destruct (contains d k) as [c|e] eqn:Hc.
      * rewrite andb_false_r, orb_true_r in Hitem. simpl in Hitem.
        destruct (setitem d k (VScalar s)) eqn:Hset; [congruence|].
        destruct d; simpl in Hset; congruence.
      * destruct d as [[]|]; simpl in Hc; congruence.
    + unfold merge_item in Hitem. destruct d as [?|items]; [congruence|].
      destruct (PyDict.get items k) as [v2|].
      * destruct (merge_value (VDict sub) true false v2) as [e ?] eqn:Hrec.
        injection Hitem as -> _. by eapply (Hv false v2); rewrite Hrec.
      * destruct (merge_value (VDict sub) true false (VDict [])) as [e ?] eqn:Hrec.
        injection Hitem as -> _. by eapply (Hv false (VDict [])); rewrite Hrec.
Qed.

(** With [allow_overwrite] set, a target of scalars is an update. *)
Lemma merge_flat target : ∀ items exc,
  flat target →
  merge_dict_inplace (VDict items) target true exc = (None, VDict (update items target)).
Proof.
  induction target as [|[k v] rest IH]; intros items exc Hflat; [done|].
  apply Forall_cons in Hflat as [[s Hs] Hrest]. simpl in Hs. subst v.
  rewrite merge_cons, merge_item_scalar. simpl.
  destruct (PyDict.get items k); by rewrite IH.
Qed.

Lemma update_other target : ∀ items k,
  k ∉ PyDict.keys target → PyDict.get (update items target) k = PyDict.get items k.
Proof.
  induction target as [|[k' v'] rest IH]; intros items k Hk; [done|].
  apply not_elem_of_keys_cons in Hk as [Hne Hk].
  unfold update. simpl. fold (update (PyDict.set items k' v') rest).
  rewrite IH by done. by apply get_set_ne.
Qed.

Lemma update_get target : ∀ items k v,
  NoDup (PyDict.keys target) → (k, v) ∈ target →
  PyDict.get (update items target) k = Some v.
Proof.
  induction target as [|[k' v'] rest IH]; intros items k v Hnd Hin.
  - by apply elem_of_nil in Hin.
  - apply NoDup_keys_cons in Hnd as [Hk' Hnd].
    unfold update. simpl. fold (update (PyDict.set items k' v') rest).
    apply elem_of_cons in Hin as [[= -> ->]|Hin].
    + rewrite update_other by done. apply get_set_eq.
    + by apply IH.
Qed.

(** In a dict with distinct keys, a key has one value. *)
Lemma NoDup_keys_head (target : list (string * value)) k v v' :
  NoDup (PyDict.keys ((k, v') :: target)) → (k, v) ∈ (k, v') :: target → v = v'.
Proof.
  intros [Hk _]%NoDup_keys_cons [[= ->]|Hin]%elem_of_cons; [done|].
  destruct Hk. apply list_elem_of_fmap. by exists (k, v).
Qed.

Lemma elem_of_keys (target : list (string * value)) k v :
  (k, v) ∈ target → k ∈ PyDict.keys target.
Proof. intros. apply list_elem_of_fmap. by exists (k, v). Qed.

(** A conflict on a scalar under the strict policy stops the call. *)
Lemma strict_conflict_raises target : ∀ items k s,
  NoDup (PyDict.keys target) → (k, VScalar s) ∈ target →
  PyDict.has items k = true →
  (merge_dict_inplace (VDict items) target false true).1 ≠ None.
Proof.
  induction target as [|[k' v'] rest IH]; intros items k s Hnd Hin Hhas.
  - by apply elem_of_nil in Hin.
  - rewrite merge_cons. destruct (decide (k' = k)) as [->|Hne].
    + rewrite <- (NoDup_keys_head _ _ _ _ Hnd Hin), merge_item_scalar.
      apply has_true in Hhas as [old ->]. done.
    + apply elem_of_cons in Hin as [[= ? ?]|Hin]; [done|].
      apply NoDup_keys_cons in Hnd as [_ Hnd].
      destruct (merge_item_dict (merge_value v' true false) false true items k' v')
        as (items1 & Hst & Hother).
      destruct (merge_item _ _ _ _ _ _) as [[e|] d1]; [done|].
      simpl in Hst. subst d1. eapply IH; [done..|].
      unfold PyDict.has. rewrite Hother by done. apply Hhas.
Qed.

(** A RuntimeError about a key comes from a conflict on that key under the
    strict policy. *)
Lemma RuntimeError_from_conflict target : ∀ items allow exc k old new st,
  NoDup (PyDict.keys target) →
  merge_dict_inplace (VDict items) target allow exc = (Some (RuntimeError k old new), st) →
  PyDict.get items k = Some old ∧ allow = false ∧ exc = true ∧ (k, new) ∈ target.
Proof.
  induction target as [|[k' v'] rest IH]; intros items allow exc k old new st Hnd Hrun.
  - done.
  - apply NoDup_keys_cons in Hnd as [Hk' Hnd]. rewrite merge_cons in Hrun.
    destruct (merge_item_dict (merge_value v' true false) allow exc items k' v')
      as (items1 & Hst & Hother).
    destruct (merge_item _ _ _ _ _ _) as [[e|] d1] eqn:Hitem.
    + injection Hrun as -> ->. destruct v' as [s|sub].
      * rewrite merge_item_scalar in Hitem.
        destruct (PyDict.get items k') as [old'|] eqn:Hget; [|done].
        destruct allow, exc; simpl in Hitem; try done.
        injection Hitem as -> -> ->. repeat split; [done|]. apply elem_of_cons; by left.
      * exfalso. unfold merge_item in Hitem. destruct (PyDict.get items k') as [v2|].
        -- destruct (merge_value (VDict sub) true false v2) as [e ?] eqn:Hrec.
           injection Hitem as -> _.
           by eapply (allow_never_RuntimeError (VDict sub) false v2); rewrite Hrec.
        -- destruct (merge_value (VDict sub) true false (VDict [])) as [e ?] eqn:Hrec.
           injection Hitem as -> _.
           by eapply (allow_never_RuntimeError (VDict sub) false (VDict [])); rewrite Hrec.
    + simpl in Hst. subst d1.
      destruct (IH _ _ _ _ _ _ _ Hnd Hrun) as (Hget & -> & -> & Hin).
      repeat split; [|by apply elem_of_cons; right].
      rewrite <- Hother; [done|]. intros ->. apply Hk'. by eapply elem_of_keys.
Qed.

(** When the call returns, a scalar item has been skipped or assigned. *)
Lemma scalar_after_return target : ∀ items allow exc k s st,
  NoDup (PyDict.keys target) → (k, VScalar s) ∈ target →
  merge_dict_inplace (VDict items) target allow exc = (None, st) →
  lookup st k
  = if PyDict.has items k && negb allow then PyDict.get items k else Some (VScalar s).
Proof.
  induction target as [|[k' v'] rest IH]; intros items allow exc k s st Hnd Hin Hrun.
  - by apply elem_of_nil in Hin.
  - rewrite merge_cons in Hrun. destruct (decide (k' = k)) as [->|Hne].
    + rewrite <- (NoDup_keys_head _ _ _ _ Hnd Hin) in Hrun.
      apply NoDup_keys_cons in Hnd as [Hk Hnd].
      rewrite merge_item_scalar in Hrun. unfold PyDict.has.
      assert (∀ items1, merge_dict_inplace (VDict items1) rest allow exc = (None, st) →
                lookup st k = PyDict.get items1 k) as Hrest.
      { intros items1 H1. destruct (merge_dict_other_keys rest items1 allow exc)
          as (items' & Hst & Hother). rewrite H1 in Hst. simpl in Hst. subst st.
        simpl. by apply Hother. }
      destruct (PyDict.get items k) as [old|] eqn:Hget; simpl.
      * destruct allow, exc; simpl in *; try done;
          rewrite (Hrest _ Hrun); by rewrite ?get_set_eq.
      * rewrite (Hrest _ Hrun). by rewrite get_set_eq.
    + apply elem_of_cons in Hin as [[= ? ?]|Hin]; [done|].
      apply NoDup_keys_cons in Hnd as [_ Hnd].
      destruct (merge_item_dict (merge_value v' true false) allow exc items k' v')
        as (items1 & Hst & Hother).
      destruct (merge_item _ _ _ _ _ _) as [[e|] d1]; [done|].
      simpl in Hst. subst d1. rewrite (IH _ _ _ _ _ _ Hnd Hin Hrun).
      unfold PyDict.has. by rewrite Hother.
Qed.

Lemma merge_app d pre post allow exc :
  merge_dict_inplace d (pre ++ post) allow exc
  = match merge_dict_inplace d pre allow exc with
    | (Some e, d') => (Some e, d')
    | (None, d') => merge_dict_inplace d' post allow exc
    end.
Proof.
  revert d. induction pre as [|[k v] pre IH]; intros d; [done|].
  rewrite <- app_comm_cons, !merge_cons.
  destruct (merge_item _ _ _ _ _ _) as [[e|] d']; [done|]. apply IH.
Qed.

(** A target of scalars under keys that [d] does not have is assigned whole,
    under every policy. *)
Lemma merge_fresh_flat pre : ∀ items allow exc,
  flat pre → NoDup (PyDict.keys pre) →
  (∀ key, key ∈ PyDict.keys pre → PyDict.get items key = None) →
  merge_dict_inplace (VDict items) pre allow exc = (None, VDict (update items pre)).
Proof.
  induction pre as [|[k v] rest IH]; intros items allow exc Hflat Hnd Hfresh; [done|].
  apply Forall_cons in Hflat as [[s Hs] Hflat]. simpl in Hs. subst v.
  apply NoDup_keys_cons in Hnd as [Hk Hnd].
  rewrite merge_cons, merge_item_scalar, (Hfresh k) by apply list_elem_of_here.
  unfold update. simpl. fold (update (PyDict.set items k (VScalar s)) rest).
  apply IH; [done..|]. intros key Hkey.
  rewrite get_set_ne; [|by intros ->]. apply Hfresh. by apply elem_of_cons; right.
Qed.

Lemma keys_app (pre post : list (string * value)) :
  PyDict.keys (pre ++ post) = PyDict.keys pre ++ PyDict.keys post.
Proof. unfold PyDict.keys. apply fmap_app. Qed.

Lemma NoDup_keys_middle (pre post : list (string * value)) k v :
  NoDup (PyDict.keys (pre ++ (k, v) :: post)) → k ∉ PyDict.keys pre.
Proof.
  rewrite keys_app. intros (_ & Hdisjoint & _)%NoDup_app Hin.
  apply (Hdisjoint k Hin). apply list_elem_of_here.
Qed.

(** The state that the items before a key leave: a dict, with the entry of
    the key as it was. *)
Lemma state_before_key pre items items1 allow exc k :
  k ∉ PyDict.keys pre →
  merge_dict_inplace (VDict items) pre allow exc = (None, VDict items1) →
  PyDict.get items1 k = PyDict.get items k.
Proof.
  intros Hk Hpre. destruct (merge_dict_other_keys pre items allow exc)
    as (items' & Hst & Hother).
  rewrite Hpre in Hst. simpl in Hst. injection Hst as <-. by apply Hother.
Qed.

(** What a call does on reaching a scalar item. *)
Lemma scalar_item_step items pre post k s allow exc items1 :
  k ∉ PyDict.keys pre →
  merge_dict_inplace (VDict items) pre allow exc = (None, VDict items1) →
  merge_dict_inplace (VDict items) (pre ++ (k, VScalar s) :: post) allow exc
  = match PyDict.get items k with
    | Some old =>
        if negb allow && exc
        then (Some (RuntimeError k old (VScalar s)), VDict items1)
        else if allow
             then merge_dict_inplace (VDict (PyDict.set items1 k (VScalar s))) post allow exc
             else merge_dict_inplace (VDict items1) post allow exc
    | None => merge_dict_inplace (VDict (PyDict.set items1 k (VScalar s))) post allow exc
    end.
Proof.
  intros Hk Hpre. rewrite merge_app, Hpre, merge_cons, merge_item_scalar.
  rewrite (state_before_key _ _ _ _ _ _ Hk Hpre).
  destruct (PyDict.get items k); [|done]. by destruct (negb allow && exc), allow.
Qed.

(** On a dict, a target of scalars raises nothing but a RuntimeError. *)
Lemma flat_only_RuntimeError target : ∀ items allow exc e st,
  flat target →
  merge_dict_inplace (VDict items) target allow exc = (Some e, st) →
  ∃ k old new, e = RuntimeError k old new.
Proof.
  induction target as [|[k v] rest IH]; intros items allow exc e st Hflat; [done|].
  apply Forall_cons in Hflat as [[s Hs] Hflat]. simpl in Hs. subst v.
  rewrite merge_cons, merge_item_scalar.
  destruct (PyDict.get items k) as [old|].
  - destruct (negb allow && exc).
    + intros [= <- _]. by eexists _, _, _.
    + destruct allow; by apply IH.
  - by apply IH.
Qed.

(** With [allow_overwrite] false, a target of scalars that is merged without
    an exception has only added its new keys. *)
Lemma flat_return_adds target : ∀ items exc st,
  flat target →
  merge_dict_inplace (VDict items) target false exc = (None, st) →
  st = VDict (add_missing items target).
Proof.
  induction target as [|[k v] rest IH]; intros items exc st Hflat.
  - by intros [= <-].
  - apply Forall_cons in Hflat as [[s Hs] Hflat]. simpl in Hs. subst v.
    rewrite merge_cons, merge_item_scalar. unfold add_missing. simpl. unfold PyDict.has.
    destruct (PyDict.get items k) as [old|]; simpl.
    + destruct exc; simpl; [done|]. by apply IH.
    + by apply IH.
Qed.

(** A RuntimeError is about a scalar item of the target, under the strict
    policy: no nested merge raises one. *)
Lemma RuntimeError_is_scalar_item target : ∀ d allow exc key old new st,
  merge_dict_inplace d target allow exc = (Some (RuntimeError key old new), st) →
  ∃ s, new = VScalar s ∧ (key, VScalar s) ∈ target ∧ allow = false ∧ exc = true.
Proof.
  induction target as [|[k v] rest IH]; intros d allow exc key old new st; [done|].
  rewrite merge_cons.
  destruct (merge_item _ _ _ _ _ _) as [[e|] d1] eqn:Hitem.
  - intros [= -> ->]. destruct v as [s|sub].
    + unfold merge_item in Hitem. destruct (contains d k) as [c|e] eqn:Hc.
      * destruct (c && negb allow && exc) eqn:Hcond.
        -- apply andb_true_iff in Hcond as [[_ Hallow%negb_true_iff]%andb_true_iff ->].
           subst allow. destruct (getitem d k) as [old'|e'] eqn:Hget.
           ++ injection Hitem as <- _ <-. exists s. split_and!; try done.
              apply list_elem_of_here.
           ++ injection Hitem as -> _. destruct d as [[]|]; simpl in Hget; try done.
              by destruct (PyDict.get items k).
        -- destruct (negb c || allow); [|done].
           destruct (setitem d k (VScalar s)) eqn:Hset; [done|].
           injection Hitem as -> _. by destruct d.
      * injection Hitem as -> _. by destruct d as [[]|].
    + exfalso. unfold merge_item in Hitem. destruct d as [?|items]; [done|].
      destruct (PyDict.get items k) as [v2|].
      * destruct (merge_value (VDict sub) true false v2) as [e ?] eqn:Hrec.
        injection Hitem as -> _.
        by eapply (allow_never_RuntimeError (VDict sub) false v2); rewrite Hrec.
      * destruct (merge_value (VDict sub) true false (VDict [])) as [e ?] eqn:Hrec.
        injection Hitem as -> _.
        by eapply (allow_never_RuntimeError (VDict sub) false (VDict [])); rewrite Hrec.
  - intros Hrun. destruct (IH _ _ _ _ _ _ _ Hrun) as (s & -> & Hin & -> & ->).
    exists s. repeat split. by apply elem_of_cons; right.
Qed.

Lemma flat_key_is_scalar (target : list (string * value)) k :
  flat target → k ∈ PyDict.keys target → ∃ s, (k, VScalar s) ∈ target.
Proof.
  intros Hflat ([k' v] & -> & Hin)%list_elem_of_fmap.
  destruct (proj1 (Forall_forall _ _) Hflat _ Hin) as [s Hs]. simpl in Hs. subst v.
  by exists s.
Qed.

(** What a call does on reaching a nested item: the recursive call is made
    with the default policy. *)
Lemma nested_item_step items pre post k sub allow exc items1 :
  merge_dict_inplace (VDict items) pre allow exc = (None, VDict items1) →
  merge_dict_inplace (VDict items) (pre ++ (k, VDict sub) :: post) allow exc
  = match PyDict.get items1 k with
    | Some v2 =>
        match merge_dict_inplace v2 sub true false with
        | (Some e, v2') => (Some e, VDict (PyDict.set items1 k v2'))
        | (None, v2') =>
            merge_dict_inplace (VDict (PyDict.set items1 k v2')) post allow exc
        end
    | None =>
        match (merge_dict_inplace (VDict []) sub true false).1 with
        | Some e => (Some e, VDict items1)
        | None => merge_dict_inplace (VDict items1) post allow exc
        end
    end.
Proof.
  intros Hpre. rewrite merge_app, Hpre, merge_cons. unfold merge_item.
  destruct (PyDict.get items1 k) as [v2|]; rewrite merge_value_dict.
  - by destruct (merge_dict_inplace v2 sub true false) as [[e|] v2'].
  - by destruct (merge_dict_inplace (VDict []) sub true false) as [[e|] ?].
Qed.

(** A nested dict of [target] under a key that [d] has with a dict is merged
    into that dict. *)
Lemma nested_present_is_merged items k v2 sub allow exc :
  PyDict.get items k = Some v2 →
  merge_dict_inplace (VDict items) [(k, VDict sub)] allow exc
  = ((merge_dict_inplace v2 sub true false).1,
     VDict (PyDict.set items k (merge_dict_inplace v2 sub true false).2)).
Proof.
  intros Hget. rewrite merge_cons. unfold merge_item. rewrite Hget, merge_value_dict.
  by destruct (merge_dict_inplace v2 sub true false) as [[e|] v2'].
Qed.

(** A nested dict of [target] under a key that [d] does not have leaves [d]
    as it was, whatever the policy. *)
Lemma nested_absent_is_dropped items k sub allow exc :
  PyDict.get items k = None →
  (merge_dict_inplace (VDict items) [(k, VDict sub)] allow exc).2 = VDict items.
Proof.
  intros Hget. rewrite merge_cons. unfold merge_item. rewrite Hget.
  by destruct (merge_value (VDict sub) true false (VDict [])) as [[e|] ?].
Qed.

Example merge_nested_example :
  merge_dict_inplace (VDict [("a", VDict [("x", VScalar (SInt 1))])])
    [("a", VDict [("y", VScalar (SInt 2))])] true false
  = (None, VDict [("a", VDict [("x", VScalar (SInt 1)); ("y", VScalar (SInt 2))])]).
Proof. reflexivity. Qed.

Example merge_strict_example :
  merge_dict_inplace (VDict [("a", VScalar (SInt 1))]) [("a", VScalar (SInt 2))] false true
  = (Some (RuntimeError "a" (VScalar (SInt 1)) (VScalar (SInt 2))),
     VDict [("a", VScalar (SInt 1))])
  ∧ merge_dict_inplace (VDict [("a", VScalar (SInt 1))]) [("a", VScalar (SInt 2))] false false
    = (None, VDict [("a", VScalar (SInt 1))]).
Proof. split; reflexivity. Qed.

(** C1, at the input where the code departs from it: merging
    [{"a": {"y": 2}}] into the empty dict returns without an exception and
    leaves the dict empty; no mapping is created at key ["a"]. *)
Theorem merge_nested_under_absent_key :
  merge_dict_inplace (VDict []) [("a", VDict [("y", VScalar (SInt 2))])] true false
  = (None, VDict [])
  ∧ lookup (merge_dict_inplace (VDict []) [("a", VDict [("y", VScalar (SInt 2))])] true false).2 "a"
    = None.
Proof. split; reflexivity. Qed.

(** C6: a call that reaches an item [(k, sub)] of [target] whose value is a
    nested mapping, the items before it handled without an exception.  The
    recursive call on [d.get(k, {})] is made with the default policy
    (overwrite allowed, no exception), whatever [allow_overwrite] and
    [overwrite_exception] the caller passed: when [d] has a value at [k], the
    call goes on with the rest of [target] on [d] with that value merged, or
    stops with the exception of the nested merge; when [d] has no value at
    [k], the nested merge is made into a fresh dict that is dropped.  When
    [d] has a dict at [k] and [sub] holds scalars, these are all assigned into
    that dict, those in conflict with an entry of it included, and no
    exception is raised there.  A RuntimeError of the call is never about an
    entry of a nested mapping: it is about a scalar item of [target] further
    on, under [allow_overwrite] false and [overwrite_exception] true.  And a
    call whose target holds nothing but nested mappings does the same under
    every policy. *)
Theorem nested_merge_uses_default_policy
    (items pre post sub items1 : list (string * value)) (k : string) (allow exc : bool) :
  merge_dict_inplace (VDict items) pre allow exc = (None, VDict items1) →
  let r := merge_dict_inplace (VDict items) (pre ++ (k, VDict sub) :: post) allow exc in
  (∀ v2, PyDict.get items1 k = Some v2 →
     r = match merge_dict_inplace v2 sub true false with
         | (Some e, v2') => (Some e, VDict (PyDict.set items1 k v2'))
         | (None, v2') =>
             merge_dict_inplace (VDict (PyDict.set items1 k v2')) post allow exc
         end)
  ∧ (PyDict.get items1 k = None →
       r = match (merge_dict_inplace (VDict []) sub true false).1 with
           | Some e => (Some e, VDict items1)
           | None => merge_dict_inplace (VDict items1) post allow exc
           end)
  ∧ (∀ sub0, PyDict.get items1 k = Some (VDict sub0) → flat sub →
       r = merge_dict_inplace (VDict (PyDict.set items1 k (VDict (update sub0 sub))))
             post allow exc
       ∧ ∀ j new, NoDup (PyDict.keys sub) → (j, VScalar new) ∈ sub →
           PyDict.get (update sub0 sub) j = Some (VScalar new))
  ∧ (∀ key old new, r.1 = Some (RuntimeError key old new) →
       ∃ s, new = VScalar s ∧ (key, VScalar s) ∈ post ∧ allow = false ∧ exc = true)
  ∧ (∀ d target, all_nested target →
       merge_dict_inplace d target allow exc = merge_dict_inplace d target true false
       ∧ ∀ key old new,
           (merge_dict_inplace d target allow exc).1 ≠ Some (RuntimeError key old new)).
Proof.
  intros Hpre r. subst r. rewrite (nested_item_step _ _ _ _ _ _ _ _ Hpre).
  split_and!.
  - by intros v2 ->.
  - by intros ->.
  - intros sub0 -> Hflat. split.
    + by rewrite (merge_flat sub sub0 false Hflat).
    + intros j new Hnd Hin. by apply update_get.
  - intros key old new.
    destruct (PyDict.get items1 k) as [v2|].
    + destruct (merge_dict_inplace v2 sub true false) as [[e|] v2'] eqn:Hrec.
      * simpl. intros [= ->]. exfalso.
        eapply (allow_never_RuntimeError (VDict sub) false v2).
        rewrite merge_value_dict, Hrec. reflexivity.
      * destruct (merge_dict_inplace _ post allow exc) as [e st] eqn:Hpost.
        simpl. intros ->. by eapply RuntimeError_is_scalar_item.
    + destruct (merge_dict_inplace (VDict []) sub true false) as [[e|] ?] eqn:Hrec; simpl.
      * intros [= ->]. exfalso.
        eapply (allow_never_RuntimeError (VDict sub) false (VDict [])).
        rewrite merge_value_dict, Hrec. reflexivity.
      * destruct (merge_dict_inplace _ post allow exc) as [e st] eqn:Hpost.
        simpl. intros ->. by eapply RuntimeError_is_scalar_item.
  - intros d target Hnested.
    assert (merge_dict_inplace d target allow exc = merge_dict_inplace d target true false)
      as Hsame.
    { revert d. induction Hnested as [|[k' v] rest [sub' Hv] _ IH]; intros d; [done|].
      simpl in Hv. subst v. rewrite !merge_cons.
      replace (merge_item (merge_value (VDict sub') true false) allow exc d k' (VDict sub'))
        with (merge_item (merge_value (VDict sub') true false) true false d k' (VDict sub'))
        by reflexivity.
      destruct (merge_item _ _ _ _ _ _) as [[e|] d1]; [done|]. apply IH. }
    split; [done|]. intros key old new. rewrite Hsame.
    apply (allow_never_RuntimeError (VDict target) false d).
Qed.

Lemma nested_merge_uses_default_policy_witness :
  merge_dict_inplace
    (VDict [("a", VDict [("x", VScalar (SInt 1))]); ("b", VScalar (SInt 1))])
    [("c", VScalar (SInt 5))] false true
  = (None, VDict [("a", VDict [("x", VScalar (SInt 1))]); ("b", VScalar (SInt 1));
                  ("c", VScalar (SInt 5))])
  ∧ merge_dict_inplace
      (VDict [("a", VDict [("x", VScalar (SInt 1))]); ("b", VScalar (SInt 1))])
      ([("c", VScalar (SInt 5))]
       ++ ("a", VDict [("x", VScalar (SInt 2)); ("y", VScalar (SInt 3))])
       :: [("d", VScalar (SInt 6))]) false true
    = (None, VDict [("a", VDict [("x", VScalar (SInt 2)); ("y", VScalar (SInt 3))]);
                    ("b", VScalar (SInt 1)); ("c", VScalar (SInt 5));
                    ("d", VScalar (SInt 6))]).
Proof.
  assert (merge_dict_inplace
            (VDict [("a", VDict [("x", VScalar (SInt 1))]); ("b", VScalar (SInt 1))])
            [("c", VScalar (SInt 5))] false true
          = (None, VDict [("a", VDict [("x", VScalar (SInt 1))]); ("b", VScalar (SInt 1));
                          ("c", VScalar (SInt 5))])) as Hpre by reflexivity.
  split; [exact Hpre|].
  destruct (nested_merge_uses_default_policy _ _ [("d", VScalar (SInt 6))]
              [("x", VScalar (SInt 2)); ("y", VScalar (SInt 3))] _ "a" false true Hpre)
    as (_ & _ & Hconflict & _).
  destruct (Hconflict [("x", VScalar (SInt 1))]) as [Hrun _].
  - reflexivity.
  - repeat constructor; by eexists.
  - rewrite Hrun. reflexivity.
Defined.

(** C7: for a key [k] of [target] with a scalar value, and [d] a dict.  If
    [k] is in [d], [allow_overwrite] is false and [overwrite_exception] is
    true, the call raises.  A RuntimeError about [k] is raised only then, and
    a call whose target is [k] alone raises only then.  When the call returns:
    if [k] was in [d] and [allow_overwrite] is false, [d[k]] has its old
    value; in every other case [d[k]] is the value of [target].  A call that
    reaches the item of [k], the items before it handled without an
    exception, raises the RuntimeError there in the first case and leaves [d]
    as those items made it; in the second case it goes on with the rest of
    [target] on [d] as it is; in every other case it assigns [d[k]] and goes
    on with the rest.  And a call whose target holds nothing but scalars
    raises if and only if both flags are so and some key of [target] is in
    [d]; when it returns, [d] is [d.update(target)] under [allow_overwrite],
    and else [d] with the new keys of [target] added. *)
Theorem scalar_item_overwrite_policy
    (items target : list (string * value)) (k : string) (s : scalar) (allow exc : bool) :
  NoDup (PyDict.keys target) → (k, VScalar s) ∈ target →
  let r := merge_dict_inplace (VDict items) target allow exc in
  let conflict := PyDict.has items k in
  (conflict = true ∧ allow = false ∧ exc = true → r.1 ≠ None)
  ∧ (∀ old new, r.1 = Some (RuntimeError k old new) →
       conflict = true ∧ allow = false ∧ exc = true)
  ∧ (target = [(k, VScalar s)] →
       (r.1 ≠ None ↔ conflict = true ∧ allow = false ∧ exc = true))
  ∧ (r.1 = None → conflict = true → allow = false →
       lookup r.2 k = PyDict.get items k)
  ∧ (r.1 = None → conflict = false ∨ allow = true →
       lookup r.2 k = Some (VScalar s))
  ∧ (∀ pre post items1,
       target = pre ++ (k, VScalar s) :: post →
       merge_dict_inplace (VDict items) pre allow exc = (None, VDict items1) →
       r = match PyDict.get items k with
           | Some old =>
               if negb allow && exc
               then (Some (RuntimeError k old (VScalar s)), VDict items1)
               else if allow
                    then merge_dict_inplace (VDict (PyDict.set items1 k (VScalar s)))
                           post allow exc
                    else merge_dict_inplace (VDict items1) post allow exc
           | None =>
               merge_dict_inplace (VDict (PyDict.set items1 k (VScalar s))) post allow exc
           end)
  ∧ (flat target →
       (r.1 ≠ None ↔
        allow = false ∧ exc = true
        ∧ ∃ k', k' ∈ PyDict.keys target ∧ PyDict.has items k' = true)
       ∧ (r.1 = None →
          r.2 = VDict (if allow then update items target else add_missing items target))).
Proof.
  intros Hnd Hin r conflict. subst r conflict.
  split; [|split; [|split; [|split; [|split; [|split]]]]].
  - intros (Hhas & -> & ->). by eapply strict_conflict_raises.
  - intros old new Hraise.
    destruct (merge_dict_inplace (VDict items) target allow exc) as [e st] eqn:Hrun.
    simpl in Hraise. subst e.
    destruct (RuntimeError_from_conflict _ _ _ _ _ _ _ _ Hnd Hrun) as (Hget & -> & -> & _).
    repeat split. apply has_true. by rewrite Hget.
  - intros ->. split.
    + rewrite merge_cons, merge_item_scalar. unfold PyDict.has.
      destruct (PyDict.get items k); [|done]. by destruct allow, exc.
    + intros (Hhas & -> & ->). by eapply strict_conflict_raises.
  - intros Hret Hhas ->.
    destruct (merge_dict_inplace (VDict items) target false exc) as [e st] eqn:Hrun.
    simpl in Hret. subst e. simpl.
    rewrite (scalar_after_return _ _ _ _ _ _ _ Hnd Hin Hrun). by rewrite Hhas.
  - intros Hret Hcase.
    destruct (merge_dict_inplace (VDict items) target allow exc) as [e st] eqn:Hrun.
    simpl in Hret. subst e. simpl.
    rewrite (scalar_after_return _ _ _ _ _ _ _ Hnd Hin Hrun).
    destruct Hcase as [->| ->]; [done|]. by rewrite andb_false_r.
  - intros pre post items1 -> Hpre. apply scalar_item_step; [|done].
    by eapply NoDup_keys_middle.
  - intros Hflat. split; [split|].
    + intros Hraise.
      destruct (merge_dict_inplace (VDict items) target allow exc) as [[e|] st] eqn:Hrun;
        [|done].
      destruct (flat_only_RuntimeError _ _ _ _ _ _ Hflat Hrun) as (k' & old & new & ->).
      destruct (RuntimeError_from_conflict _ _ _ _ _ _ _ _ Hnd Hrun)
        as (Hget & -> & -> & Hk').
      split_and!; try done. exists k'. split; [by eapply elem_of_keys|].
      apply has_true. by rewrite Hget.
    + intros (-> & -> & k' & Hk' & Hhas).
      destruct (flat_key_is_scalar _ _ Hflat Hk') as [s' Hs'].
      by eapply strict_conflict_raises.
    + intros Hret.
      destruct (merge_dict_inplace (VDict items) target allow exc) as [e st] eqn:Hrun.
      simpl in Hret. subst e. simpl. destruct allow.
      * rewrite (merge_flat _ _ _ Hflat) in Hrun. by injection Hrun as <-.
      * by eapply flat_return_adds.
Qed.

Lemma scalar_item_overwrite_policy_witness :
  NoDup (PyDict.keys [("a", VScalar (SInt 2)); ("b", VScalar (SInt 3))])
  ∧ ("a", VScalar (SInt 2)) ∈ [("a", VScalar (SInt 2)); ("b", VScalar (SInt 3))]
  ∧ (merge_dict_inplace (VDict [("a", VScalar (SInt 1))])
       [("a", VScalar (SInt 2)); ("b", VScalar (SInt 3))] false true).1 ≠ None.
Proof.
  assert (NoDup (PyDict.keys [("a", VScalar (SInt 2)); ("b", VScalar (SInt 3))])) as Hnd.
  { by apply (bool_decide_unpack _). }
  assert (("a", VScalar (SInt 2)) ∈ [("a", VScalar (SInt 2)); ("b", VScalar (SInt 3))])
    as Hin by apply list_elem_of_here.
  split; [exact Hnd|]. split; [exact Hin|].
  destruct (scalar_item_overwrite_policy [("a", VScalar (SInt 1))] _ "a" (SInt 2)
              false true Hnd Hin) as [Hraise _].
  apply Hraise. repeat split; reflexivity.
Defined.

End MergeFacts.

(** ** load_rttm, load_stm *)

Module LoaderFacts.
Import Loaders PyDictFacts.

Section groups.
Context {R A : Type}.
Implicit Types (data : DataFrame R) (rows : list R).

(** The dict that the loop over the groups fills. *)
Lemma get_foldl_groups (build : string → DataFrame R → A)
    (group : string → DataFrame R) (ks : list string) : ∀ acc u,
  PyDict.get (foldl (λ annotations '(uri, turns), PyDict.set annotations uri (build uri turns))
                    acc ((λ u, (u, group u)) <$> ks)) u
  = if decide (u ∈ ks) then Some (build u (group u)) else PyDict.get acc u.
Proof.
  induction ks as [|k ks IH]; intros acc u; [done|].
  rewrite fmap_cons. cbn [foldl]. rewrite IH.
  destruct (decide (u ∈ ks)) as [Hin|Hnin].
  - rewrite decide_True; [done|]. by apply elem_of_cons; right.
  - destruct (decide (k = u)) as [->|Hne].
    + rewrite decide_True by apply list_elem_of_here. apply get_set_eq.
    + rewrite decide_False.
      * by apply get_set_ne.
      * intros [->|?]%elem_of_cons; done.
Qed.

(** A uri has a group when some row of the table carries it. *)
Lemma elem_of_group_keys (uri_of : R → option string) rows u :
  u ∈ merge_sort str_le (remove_dups (omap (λ ir, uri_of ir.2) (read_csv rows)))
  ↔ ∃ i r, rows !! i = Some r ∧ uri_of r = Some u.
Proof.
  rewrite merge_sort_Permutation, elem_of_remove_dups, list_elem_of_omap.
  unfold read_csv. split.
  - intros ([i r] & Hin & Huri). apply elem_of_lookup_imap in Hin as (j & y & [= -> ->] & Hj).
    by exists j, y.
  - intros (i & r & Hi & Huri). exists (i, r). split; [|done].
    by apply (elem_of_lookup_imap_2 (λ i row, (i, row))).
Qed.

(** The index labels of a table read from a file go up by one from 0. *)
Lemma read_csv_labels rows : (read_csv rows).*1 = seq 0 (length rows).
Proof.
  unfold read_csv. rewrite fmap_imap.
  rewrite (imap_ext _ (λ j _, id j)) by done.
  rewrite imap_seq_0. apply list_fmap_id.
Qed.

Lemma seq_increasing n : ∀ a, StronglySorted lt (seq a n).
Proof.
  induction n as [|n IH]; intros a; simpl; constructor; [apply IH|].
  apply Forall_seq. lia.
Qed.

(** Rows taken out of a table keep their labels in increasing order. *)
Lemma filter_labels_increasing (P : nat * R → Prop) `{∀ x, Decision (P x)}
    (data : list (nat * R)) :
  StronglySorted lt data.*1 → StronglySorted lt (filter P data).*1.
Proof.
  induction data as [|[i r] data IH]; [done|].
  rewrite fmap_cons. intros [Hhead Hrest]%StronglySorted_cons. rewrite filter_cons.
  destruct (decide (P (i, r))); [|by apply IH].
  rewrite fmap_cons. apply StronglySorted_cons. split; [|by apply IH].
  apply Forall_forall. intros j ([j' r'] & -> & [_ Hin]%list_elem_of_filter)%list_elem_of_fmap.
  rewrite Forall_forall in Hhead. apply Hhead. apply list_elem_of_fmap. by exists (j', r').
Qed.
End groups.

(** The loop over the rows of a group of [load_stm]. *)
Lemma stm_annotation turns : ∀ a,
  foldl (λ annotation '(i, turn),
           let segment := mkSegment (stm_start turn) (stm_end turn) in
           setitem annotation segment i (stm_speaker turn)) a turns
  = mkAnnotation (uri a) (tracks a ++ (stm_entry <$> turns)).
Proof.
  induction turns as [|[i turn] turns IH]; intros a; simpl.
  - destruct a. by rewrite app_nil_r.
  - rewrite IH. simpl. by rewrite <- app_assoc.
Qed.

(** The loop over the rows of a group of [load_rttm]. *)
Lemma rttm_annotation keep_type turns : ∀ a,
  foldl (λ annotation '(i, turn),
           if decide (rttm_type turn ≠ keep_type) then annotation
           else
             let segment :=
               mkSegment (rttm_start turn) (rttm_start turn + rttm_duration turn)%float in
             setitem annotation segment i (rttm_speaker turn)) a turns
  = mkAnnotation (uri a)
      (tracks a ++ (rttm_entry <$> filter (λ ir, rttm_type ir.2 = keep_type) turns)).
Proof.
  induction turns as [|[i turn] turns IH]; intros a.
  - destruct a. simpl. by rewrite app_nil_r.
  - simpl foldl. rewrite IH, filter_cons. simpl.
    destruct (decide (rttm_type turn ≠ keep_type)) as [Hne|Heq].
    + by rewrite decide_False.
    + apply dec_stable in Heq. rewrite decide_True by done.
      simpl. by rewrite <- app_assoc.
Qed.


Lemma filter_none {B : Type} (P : B → Prop) `{∀ x, Decision (P x)} (l : list B) :
  (∀ x, x ∈ l → ¬ P x) → filter P l = [].
Proof.
  induction l as [|x l IH]; intros Hnone; [done|].
  rewrite filter_cons_False by (apply Hnone, list_elem_of_here).
  apply IH. intros y Hy. apply Hnone. by apply elem_of_cons; right.
Qed.

(** The annotation that [load_stm] returns for a uri. *)
Lemma load_stm_get rows u :
  PyDict.get (load_stm rows) u
  = if decide (u ∈ merge_sort str_le
                     (remove_dups (omap (λ ir, stm_uri ir.2) (read_csv rows))))
    then Some (mkAnnotation (Some u) (stm_entry <$> stm_group rows u))
    else None.
Proof.
  etrans.
  - exact (get_foldl_groups
             (λ uri turns,
                foldl (λ annotation '(i, turn),
                         let segment := mkSegment (stm_start turn) (stm_end turn) in
                         setitem annotation segment i (stm_speaker turn))
                      (mkAnnotation (Some uri) []) (iterrows turns))
             (stm_group rows) _ [] u).
  - simpl. by rewrite stm_annotation.
Qed.

(** The annotation that [load_rttm] returns for a uri. *)
Lemma load_rttm_get rows keep_type u :
  PyDict.get (load_rttm rows keep_type) u
  = if decide (u ∈ merge_sort str_le
                     (remove_dups (omap (λ ir, rttm_uri ir.2) (read_csv rows))))
    then Some (mkAnnotation (Some u)
                 (rttm_entry <$> filter (λ ir, rttm_type ir.2 = keep_type)
                                        (rttm_group rows u)))
    else None.
Proof.
  etrans.
  - exact (get_foldl_groups
             (λ uri turns,
                foldl (λ annotation '(i, turn),
                         if decide (rttm_type turn ≠ keep_type) then annotation
                         else
                           let segment :=
                             mkSegment (rttm_start turn)
                                       (rttm_start turn + rttm_duration turn)%float in
                           setitem annotation segment i (rttm_speaker turn))
                      (mkAnnotation (Some uri) []) (iterrows turns))
             (rttm_group rows) _ [] u).
  - simpl. by rewrite rttm_annotation.
Qed.

Lemma elem_of_stm_group rows u i r :
  (i, r) ∈ stm_group rows u ↔ rows !! i = Some r ∧ stm_uri r = Some u.
Proof.
  unfold stm_group, read_csv. rewrite list_elem_of_filter, elem_of_lookup_imap. simpl.
  split.
  - intros (Huri & j & y & [= -> ->] & Hj). done.
  - intros (Hi & Huri). split; [done|]. by exists i, r.
Qed.

Lemma elem_of_rttm_group rows u i r :
  (i, r) ∈ rttm_group rows u ↔ rows !! i = Some r ∧ rttm_uri r = Some u.
Proof.
  unfold rttm_group, read_csv. rewrite list_elem_of_filter, elem_of_lookup_imap. simpl.
  split.
  - intros (Huri & j & y & [= -> ->] & Hj). done.
  - intros (Hi & Huri). split; [done|]. by exists i, r.
Qed.

Lemma stm_group_increasing rows u : StronglySorted lt (stm_group rows u).*1.
Proof. apply filter_labels_increasing. rewrite read_csv_labels. apply seq_increasing. Qed.

Lemma rttm_group_increasing rows u : StronglySorted lt (rttm_group rows u).*1.
Proof. apply filter_labels_increasing. rewrite read_csv_labels. apply seq_increasing. Qed.

(** C2 fails as stated: of three STM rows with uris A, B, A, the two rows of
    A get the tracks 0 and 2, their positions in the file, where their
    positions in the group are 0 and 1. *)
Lemma track_is_not_position_in_group :
  (λ a, track_of <$> tracks a) <$> PyDict.get (load_stm three_turns) "A" = Some [0; 2]
  ∧ (λ a, track_of <$> tracks a) <$> PyDict.get (load_stm three_turns) "A"
    ≠ Some (seq 0 2).
Proof. split; [reflexivity|]. intros H. vm_compute in H. discriminate H. Qed.

(** C2, amended: in the annotation that [load_stm] or [load_rttm] returns for
    a uri, an entry with track [i] stands for the row at position [i] of the
    whole file (counted from 0), which has this uri (and, for [load_rttm], the
    kept type); every such row has its entry; and the tracks go up strictly in
    the order of the entries, so that no two entries share a track. *)
Theorem track_is_position_in_file :
  (∀ rows u ann,
     PyDict.get (load_stm rows) u = Some ann →
     (∀ segment i label,
        (segment, i, label) ∈ tracks ann
        ↔ ∃ r, rows !! i = Some r ∧ stm_uri r = Some u
               ∧ segment = mkSegment (stm_start r) (stm_end r)
               ∧ label = stm_speaker r)
     ∧ StronglySorted lt (track_of <$> tracks ann))
  ∧ (∀ rows keep_type u ann,
       PyDict.get (load_rttm rows keep_type) u = Some ann →
       (∀ segment i label,
          (segment, i, label) ∈ tracks ann
          ↔ ∃ r, rows !! i = Some r ∧ rttm_uri r = Some u ∧ rttm_type r = keep_type
                 ∧ segment = mkSegment (rttm_start r) (rttm_start r + rttm_duration r)%float
                 ∧ label = rttm_speaker r)
       ∧ StronglySorted lt (track_of <$> tracks ann)).
Proof.
  split.
  - intros rows u ann. rewrite load_stm_get. case_decide; [|done]. intros [= <-]. simpl.
    split.
    + intros segment i label. rewrite list_elem_of_fmap. split.
      * intros ([j r] & [= -> -> ->] & Hin). apply elem_of_stm_group in Hin as [Hj Huri].
        by exists r.
      * intros (r & Hi & Huri & -> & ->). exists (i, r). split; [done|].
        by apply elem_of_stm_group.
    + rewrite <- list_fmap_compose.
      rewrite (list_fmap_ext (track_of ∘ stm_entry) fst) by done.
      apply stm_group_increasing.
  - intros rows keep_type u ann. rewrite load_rttm_get. case_decide; [|done].
    intros [= <-]. simpl. split.
    + intros segment i label. rewrite list_elem_of_fmap. split.
      * intros ([j r] & [= -> -> ->] & [Htype Hin]%list_elem_of_filter).
        apply elem_of_rttm_group in Hin as [Hj Huri]. by exists r.
      * intros (r & Hi & Huri & Htype & -> & ->). exists (i, r). split; [done|].
        apply list_elem_of_filter. split; [done|]. by apply elem_of_rttm_group.
    + rewrite <- list_fmap_compose.
      rewrite (list_fmap_ext (track_of ∘ rttm_entry) fst) by done.
      apply filter_labels_increasing, rttm_group_increasing.
Qed.

Lemma track_is_position_in_file_witness :
  PyDict.get (load_stm three_turns) "A" = Some three_turns_A
  ∧ ((mkSegment 2%float 3%float, 2, "carol") ∈ tracks three_turns_A
     ↔ ∃ r, three_turns !! 2 = Some r ∧ stm_uri r = Some "A"
            ∧ mkSegment 2%float 3%float = mkSegment (stm_start r) (stm_end r)
            ∧ "carol" = stm_speaker r).
Proof.
  assert (PyDict.get (load_stm three_turns) "A" = Some three_turns_A)
    as Hget by reflexivity.
  split; [exact Hget|].
  destruct track_is_position_in_file as [Hstm _].
  destruct (Hstm three_turns "A" _ Hget) as [Hentries _].
  exact (Hentries (mkSegment 2%float 3%float) 2 "carol").
Defined.

(** C9: every uri that a row of the file carries has an entry in the dict
    that [load_rttm] returns, an annotation of that uri; when no row of the
    uri has the kept type, the annotation is empty. *)
Theorem load_rttm_keeps_every_uri
    (rows : list rttm_row) (keep_type : string) (i : nat) (r : rttm_row) (u : string) :
  rows !! i = Some r → rttm_uri r = Some u →
  ∃ ann, PyDict.get (load_rttm rows keep_type) u = Some ann
         ∧ uri ann = Some u
         ∧ ((∀ j r', rows !! j = Some r' → rttm_uri r' = Some u →
                     rttm_type r' ≠ keep_type) →
            ann = mkAnnotation (Some u) []).
Proof.
  intros Hi Huri. rewrite load_rttm_get. rewrite decide_True.
  - eexists. split; [done|]. split; [done|]. intros Hnone.
    rewrite filter_none; [done|].
    intros [j r'] [Hj Huri']%elem_of_rttm_group. simpl. by eapply Hnone.
  - apply (elem_of_group_keys rttm_uri). by exists i, r.
Qed.

Lemma load_rttm_keeps_every_uri_witness :
  two_lines !! 1 = Some (mk_rttm "LEXEME" (Some "B") 2 1 "bob")%float
  ∧ PyDict.get (load_rttm two_lines "SPEAKER") "B" = Some (mkAnnotation (Some "B") []).
Proof.
  split; [reflexivity|].
  destruct (load_rttm_keeps_every_uri two_lines "SPEAKER" 1
              (mk_rttm "LEXEME" (Some "B") 2 1 "bob")%float "B" eq_refl eq_refl)
    as (ann & Hget & _ & Hempty).
  rewrite Hget. f_equal. apply Hempty.
  intros [|[|j]] r'; simpl; intros [= <-]; simpl; [discriminate|discriminate].
Defined.

End LoaderFacts.

(** ** load_lst *)

Module LstFacts.
Import Lst.

(** The lines are the file, cut in pieces. *)
Lemma join_readlines text : foldr String.append EmptyString (readlines text) = text.
Proof.
  induction text as [|c rest IH]; [done|]. simpl.
  destruct (decide (c = newline)); simpl; [by rewrite IH|].
  destruct (readlines rest) as [|line lines]; simpl in *; by rewrite <- IH.
Qed.

Lemma readlines_not_nil c rest : readlines (String c rest) ≠ [].
Proof.
  simpl. destruct (decide (c = newline)); [done|]. by destruct (readlines rest).
Qed.

Lemma append_nil_l (s : string) : (EmptyString ++ s)%string = s.
Proof. reflexivity. Qed.

Lemma append_cons c (s t : string) : (String c s ++ t)%string = String c (s ++ t)%string.
Proof. reflexivity. Qed.

Lemma readlines_newline rest : readlines (String newline rest) = nl :: readlines rest.
Proof. reflexivity. Qed.

(** What follows a newline starts a line of its own. *)
Lemma readlines_after_newline before after :
  readlines ((before ++ nl) ++ after)%string
  = readlines (before ++ nl)%string ++ readlines after.
Proof.
  induction before as [|c rest IH].
  - unfold nl. rewrite !append_nil_l, !append_cons, append_nil_l.
    by rewrite !readlines_newline.
  - rewrite !append_cons. simpl. destruct (decide (c = newline)); [by rewrite IH|].
    rewrite IH. destruct (readlines (rest ++ nl)%string) as [|line lines] eqn:Hlines; [|done].
    destruct rest.
    + unfold nl in Hlines. by rewrite append_nil_l, readlines_newline in Hlines.
    + rewrite append_cons in Hlines. by apply readlines_not_nil in Hlines.
Qed.

Lemma lstrip_cases s :
  (blank s = true ∧ lstrip s = EmptyString)
  ∨ (blank s = false ∧ ∃ c rest, lstrip s = String c rest ∧ isspace c = false).
Proof.
  induction s as [|c rest IH]; simpl; [by left|].
  destruct (isspace c) eqn:Hc; simpl; [done|].
  right. split; [done|]. by exists c, rest.
Qed.

Lemma rstrip_keeps_head c rest : isspace c = false → rstrip (String c rest) ≠ EmptyString.
Proof. simpl. intros ->. by destruct (rstrip rest). Qed.

(** A line is trimmed to nothing when it is blank, and only then. *)
Lemma strip_empty_iff line : strip line = EmptyString ↔ blank line = true.
Proof.
  unfold strip. destruct (lstrip_cases line) as [[-> ->]|[-> (c & rest & -> & Hc)]].
  - done.
  - split; [|done]. intros H. by apply rstrip_keeps_head in H.
Qed.

(** C3 fails as stated: for the file of the line [a] and an empty line,
    [load_lst] returns [a] and the empty string, not the one non-empty
    line. *)
Lemma load_lst_keeps_blank_lines :
  load_lst trailing_blank_line = ["a"; EmptyString]
  ∧ EmptyString ∈ load_lst trailing_blank_line
  ∧ load_lst trailing_blank_line ≠ nonempty_trimmed_lines trailing_blank_line.
Proof.
  split; [reflexivity|]. split.
  - apply elem_of_cons; right. apply list_elem_of_here.
  - intros H. vm_compute in H. discriminate H.
Qed.

(** C3, amended: [load_lst] returns one entry per line of the file, in order:
    the lines put together are the file, and the entry of a line is the line
    trimmed, which is the empty string when the line is blank and only then;
    no entry is left out, so that the non-empty trimmed lines are what is left
    of the result once its empty entries are taken out, and a file that ends
    with an empty line has the empty string as its last entry. *)
Theorem load_lst_one_entry_per_line (text : string) :
  foldr String.append EmptyString (readlines text) = text
  ∧ length (load_lst text) = length (readlines text)
  ∧ (∀ i, load_lst text !! i = strip <$> readlines text !! i)
  ∧ (∀ line, strip line = EmptyString ↔ blank line = true)
  ∧ nonempty_trimmed_lines text = filter (λ entry, entry ≠ EmptyString) (load_lst text)
  ∧ load_lst ((text ++ nl) ++ nl)%string = load_lst (text ++ nl)%string ++ [EmptyString].
Proof.
  split; [apply join_readlines|]. split; [apply length_fmap|].
  split; [intros i; apply list_lookup_fmap|]. split; [apply strip_empty_iff|].
  split; [done|].
  unfold load_lst. rewrite readlines_after_newline, fmap_app. f_equal.
Qed.

End LstFacts.

(** ** get_unique_identifier, get_annotated, LabelMapper *)

Module ItemFacts.
Import Loaders Items.

Lemma append_nil_r (s : string) : (s ++ EmptyString)%string = s.
Proof.
  induction s as [|c s IH]; [done|].
  change (String c (s ++ EmptyString)%string = String c s). by rewrite IH.
Qed.

Section identifier.
Variable str_object : pyval → string.

Example identifier_uri :
  get_unique_identifier str_object {[ "uri" := PyStr "X" ]} = Ok "X".
Proof. reflexivity. Qed.

Example identifier_database_uri :
  get_unique_identifier str_object {[ "uri" := PyStr "X"; "database" := PyStr "D" ]}
  = Ok "D/X".
Proof. reflexivity. Qed.

Example identifier_database_uri_channel :
  get_unique_identifier str_object
    {[ "uri" := PyStr "X"; "database" := PyStr "D"; "channel" := PyInt 1 ]}
  = Ok "D/X_1".
Proof. reflexivity. Qed.

Lemma identifier_of_uri (current_file : item) (uri : string) :
  current_file !! "uri" = Some (PyStr uri) →
  get_unique_identifier str_object current_file
  = match current_file !! "channel" with
    | None | Some PyNone | Some (PyInt _) =>
        Ok ((database_prefix str_object current_file ++ uri)
            ++ channel_suffix current_file)%string
    | Some (PyStr _) => Raise (ValueError "Unknown format code 'd' for object of type 'str'")
    | Some (PyFloat _) =>
        Raise (ValueError "Unknown format code 'd' for object of type 'float'")
    | Some _ => Raise TypeError
    end.
Proof.
  intros Huri.
  unfold get_unique_identifier, database_prefix, channel_suffix, getitem, get.
  rewrite Huri. simpl.
  destruct (current_file !! "database") as [[]|], (current_file !! "channel") as [[]|];
    simpl; by rewrite ?append_nil_r.
Qed.

(** C8: the identifier is the uri, with the database and a slash before it
    when the item has a database that is not [None], and with an underscore
    and the channel after it when the item has an integer channel.  Without a
    uri the call fails; a returned identifier always has this form. *)
Theorem get_unique_identifier_spec (current_file : item) :
  (current_file !! "uri" = None →
   get_unique_identifier str_object current_file = Raise (KeyError "uri"))
  ∧ (∀ uri, current_file !! "uri" = Some (PyStr uri) → channel_ok current_file →
       get_unique_identifier str_object current_file
       = Ok ((database_prefix str_object current_file ++ uri)
             ++ channel_suffix current_file)%string)
  ∧ (∀ identifier,
       get_unique_identifier str_object current_file = Ok identifier →
       ∃ uri, current_file !! "uri" = Some (PyStr uri) ∧ channel_ok current_file
              ∧ identifier = ((database_prefix str_object current_file ++ uri)
                              ++ channel_suffix current_file)%string)
  ∧ (∀ database, current_file !! "database" = Some database → database ≠ PyNone →
       database_prefix str_object current_file = (py_str str_object database ++ "/")%string)
  ∧ (current_file !! "database" = None ∨ current_file !! "database" = Some PyNone →
       database_prefix str_object current_file = EmptyString)
  ∧ (∀ n, current_file !! "channel" = Some (PyInt n) →
       channel_suffix current_file = ("_" ++ pretty n)%string)
  ∧ (current_file !! "channel" = None ∨ current_file !! "channel" = Some PyNone →
       channel_suffix current_file = EmptyString).
Proof.
  repeat split.
  - intros Huri. unfold get_unique_identifier, getitem. by rewrite Huri.
  - intros uri Huri Hchannel. rewrite (identifier_of_uri _ _ Huri).
    unfold channel_ok in Hchannel. by destruct (current_file !! "channel") as [[]|].
  - intros identifier Hret.
    destruct (current_file !! "uri") as [v|] eqn:Huri.
    + destruct v as [|uri| | | |];
        try (unfold get_unique_identifier, getitem in Hret; rewrite Huri in Hret;
             simpl in Hret; discriminate Hret).
      exists uri. rewrite (identifier_of_uri _ _ Huri) in Hret. unfold channel_ok.
      destruct (current_file !! "channel") as [[]|]; try discriminate Hret;
        by injection Hret as <-.
    + unfold get_unique_identifier, getitem in Hret. rewrite Huri in Hret. discriminate Hret.
  - intros database Hdb Hnone. unfold database_prefix. rewrite Hdb. by destruct database.
  - unfold database_prefix. by intros [-> | ->].
  - intros n Hn. unfold channel_suffix. by rewrite Hn.
  - unfold channel_suffix. by intros [-> | ->].
Qed.

End identifier.

Lemma get_unique_identifier_spec_witness :
  ({[ "uri" := PyStr "X"; "database" := PyStr "D"; "channel" := PyInt 1 ]} : item) !! "uri"
  = Some (PyStr "X")
  ∧ get_unique_identifier (λ _, "object")
      {[ "uri" := PyStr "X"; "database" := PyStr "D"; "channel" := PyInt 1 ]}
    = Ok "D/X_1".
Proof.
  split; [reflexivity|].
  destruct (get_unique_identifier_spec (λ _, "object")
              {[ "uri" := PyStr "X"; "database" := PyStr "D"; "channel" := PyInt 1 ]})
    as (_ & Hformat & _).
  exact (Hformat "X" eq_refl I).
Defined.

(** C4 fails as stated: an item whose only key is a [duration] of 0.0 gets,
    with the warning, a timeline of no segment, not of the one segment from 0
    to the duration; an item whose only key is a [duration] of [None] gets no
    timeline and no warning: the call fails with a TypeError. *)
Lemma get_annotated_duration_not_one_segment :
  get_annotated (λ _, mkSegment 0%float 0%float) {[ "duration" := PyFloat 0 ]}
  = Ok (PyTimeline [] None, [warning_duration])
  ∧ get_annotated (λ _, mkSegment 0%float 0%float) {[ "duration" := PyFloat 0 ]}
    ≠ Ok (PyTimeline [mkSegment (PyInt 0) (PyFloat 0)] None, [warning_duration])
  ∧ get_annotated (λ _, mkSegment 0%float 0%float) {[ "duration" := PyNone ]}
    = Raise TypeError.
Proof.
  split; [reflexivity|]. split; [|reflexivity].
  intros H. vm_compute in H. discriminate H.
Qed.

Section annotated.
Variable extent : Annotation → Segment float.

(** C4, amended: an item with key [annotated] gets its value back as it is,
    without a warning, whatever other keys it has.  Without that key, an item
    with key [duration] is served from the duration alone, whatever its
    [annotation]: for a duration that is a number, it gets with a warning the
    timeline built from the one segment from 0 to the duration, which holds
    this segment when the duration is more than the precision of segments and
    no segment otherwise; for a duration that is not a number the call fails
    with a TypeError and gives no warning.  Without either key, an item with
    an annotation gets with another, longer warning the timeline built from
    the extent of the annotation, which holds the extent unless the extent is
    empty. *)
Theorem get_annotated_precedence (current_file : item) :
  (∀ annotated, current_file !! "annotated" = Some annotated →
     get_annotated extent current_file = Ok (annotated, []))
  ∧ (∀ x,
       current_file !! "annotated" = None →
       current_file !! "duration" = Some (PyFloat x) →
       get_annotated extent current_file
       = Ok (PyTimeline (if (SEGMENT_PRECISION <? x - 0)%float
                         then [mkSegment (PyInt 0) (PyFloat x)] else []) None,
             [warning_duration]))
  ∧ (∀ n,
       current_file !! "annotated" = None →
       current_file !! "duration" = Some (PyInt n) →
       get_annotated extent current_file
       = Ok (PyTimeline (if (0 <? n)%Z
                         then [mkSegment (PyInt 0) (PyInt n)] else []) None,
             [warning_duration]))
  ∧ (∀ duration,
       current_file !! "annotated" = None →
       current_file !! "duration" = Some duration →
       (∀ x, duration ≠ PyFloat x) → (∀ n, duration ≠ PyInt n) →
       get_annotated extent current_file = Raise TypeError)
  ∧ (∀ a,
       current_file !! "annotated" = None → current_file !! "duration" = None →
       current_file !! "annotation" = Some (PyAnnotation a) →
       get_annotated extent current_file
       = Ok (PyTimeline
               (if (SEGMENT_PRECISION <? seg_end (extent a) - seg_start (extent a))%float
                then [mkSegment (PyFloat (seg_start (extent a)))
                                (PyFloat (seg_end (extent a)))]
                else []) None,
             [warning_extent]))
  ∧ warning_duration ≠ warning_extent.
Proof.
  unfold get_annotated, has, getitem. repeat split.
  - intros annotated Ha. rewrite Ha. by rewrite bool_decide_true.
  - intros x Ha Hd. rewrite Ha, Hd.
    rewrite bool_decide_false by (by intros [? ?]). by rewrite bool_decide_true.
  - intros n Ha Hd. rewrite Ha, Hd.
    rewrite bool_decide_false by (by intros [? ?]). rewrite bool_decide_true by done.
    unfold Timeline_of, segment_bool. simpl. by rewrite Z.sub_0_r.
  - intros duration Ha Hd Hfloat Hint. rewrite Ha, Hd.
    rewrite bool_decide_false by (by intros [? ?]). rewrite bool_decide_true by done.
    destruct duration as [|s|n|x| |]; try done.
    + by destruct (Hint n).
    + by destruct (Hfloat x).
  - intros a Ha Hd Hann. rewrite Ha, Hd, Hann.
    by rewrite bool_decide_false by (by intros [? ?]).
  - intros H. vm_compute in H. discriminate H.
Qed.
End annotated.

Lemma get_annotated_precedence_witness :
  ({[ "annotated" := PyTimeline [] (Some "X"); "duration" := PyFloat 2.5;
      "annotation" := PyAnnotation (mkAnnotation (Some "X") []) ]} : item) !! "annotated"
  = Some (PyTimeline [] (Some "X"))
  ∧ get_annotated (λ _, mkSegment 0%float 0%float)
      {[ "annotated" := PyTimeline [] (Some "X"); "duration" := PyFloat 2.5;
         "annotation" := PyAnnotation (mkAnnotation (Some "X") []) ]}
    = Ok (PyTimeline [] (Some "X"), []).
Proof.
  split; [reflexivity|].
  destruct (get_annotated_precedence (λ _, mkSegment 0%float 0%float)
              {[ "annotated" := PyTimeline [] (Some "X"); "duration" := PyFloat 2.5;
                 "annotation" := PyAnnotation (mkAnnotation (Some "X") []) ]})
    as (Hfirst & _).
  exact (Hfirst _ eq_refl).
Defined.

Section mapper.
Variable set_pop : gset string → string.

Lemma elem_of_missing (mapping : gmap string string) (a : Annotation) (label : string) :
  label ∈ (list_to_set (merge_sort str_le (remove_dups ((λ e, e.2) <$> tracks a)))
           ∖ dom mapping : gset string)
  ↔ unmapped mapping a label.
Proof.
  unfold unmapped.
  rewrite elem_of_difference, elem_of_list_to_set, merge_sort_Permutation,
    elem_of_remove_dups, not_elem_of_dom.
  done.
Qed.

(** The renaming part of a call on an item that holds an annotation. *)
Lemma rename_run (self : LabelMapper) (current_file : item) (a : Annotation) done :
  current_file !! "annotation" = Some (PyAnnotation a) →
  match getitem current_file "annotation" with
  | Raise e => mkRun (Raise e) current_file done
  | Ok annotation =>
      mkRun (rename_labels annotation (mapping self)) current_file
            (done ++ [Call_rename_labels (mapping self)])
  end
  = mkRun (Ok (PyAnnotation
                 (mkAnnotation (uri a)
                    ((λ e, (e.1, default e.2 (mapping self !! e.2))) <$> tracks a))))
          current_file (done ++ [Call_rename_labels (mapping self)]).
Proof. intros Hann. unfold getitem. by rewrite Hann. Qed.

(** C5: on an item that holds an annotation.  A strict mapper fails when a
    label of the annotation has no entry in the mapping, with the error that
    names one such label.  A lenient mapper, and a strict one when every label
    has an entry, returns an annotation with the same uri and the same
    segments and tracks, where a label with an entry is replaced by it and a
    label without one is kept; so a label of the result is either the entry of
    a label of the annotation or, for a lenient mapper, a label of the
    annotation that has no entry. *)
Theorem LabelMapper_call_spec
    (self : LabelMapper) (current_file : item) (a : Annotation) :
  (∀ s, s ≠ ∅ → set_pop s ∈ s) →
  current_file !! "annotation" = Some (PyAnnotation a) →
  let r := LabelMapper_call set_pop self current_file in
  (keep_missing self = false → (∃ l, unmapped (mapping self) a l) →
     ∃ label, unmapped (mapping self) a label
              ∧ returned r = Raise (ValueError (no_mapping_msg label)))
  ∧ (keep_missing self = true ∨ (∀ l, ¬ unmapped (mapping self) a l) →
     ∃ a', returned r = Ok (PyAnnotation a')
           ∧ uri a' = uri a
           ∧ (tracks a').*1 = (tracks a).*1
           ∧ (∀ i key l, tracks a !! i = Some (key, l) →
                tracks a' !! i = Some (key, default l (mapping self !! l)))
           ∧ (∀ l', l' ∈ (tracks a').*2 →
                (∃ l, l ∈ (tracks a).*2 ∧ mapping self !! l = Some l')
                ∨ (keep_missing self = true ∧ unmapped (mapping self) a l'))).
Proof.
  intros Hpop Hann r. subst r. split.
  - intros Hstrict [l Hl]. unfold LabelMapper_call. rewrite Hstrict. simpl.
    unfold getitem. rewrite Hann. simpl.
    set (missing := list_to_set _ ∖ dom (mapping self)).
    assert (missing ≠ ∅) as Hne.
    { intros Hempty. apply elem_of_missing in Hl. fold missing in Hl.
      rewrite Hempty in Hl. by apply not_elem_of_empty in Hl. }
    rewrite bool_decide_true by done. simpl.
    exists (set_pop missing). split; [|done].
    apply elem_of_missing. by apply Hpop.
  - intros Hcase.
    assert (LabelMapper_call set_pop self current_file
            = mkRun (Ok (PyAnnotation
                           (mkAnnotation (uri a)
                              ((λ e, (e.1, default e.2 (mapping self !! e.2))) <$> tracks a))))
                    current_file
                    ((if keep_missing self then [] else [Call_labels])
                     ++ [Call_rename_labels (mapping self)])) as ->.
    { unfold LabelMapper_call. destruct (keep_missing self) eqn:Hkeep; simpl.
      - exact (rename_run self current_file a [] Hann).
      - destruct Hcase as [?|Hnone]; [done|].
        unfold getitem at 1. rewrite Hann. simpl.
        rewrite bool_decide_false.
        + exact (rename_run self current_file a [Call_labels] Hann).
        + intros Hne. apply set_choose_L in Hne as [l Hl].
          apply elem_of_missing in Hl. by apply (Hnone l). }
    simpl. eexists. split; [done|]. simpl. split; [done|]. split; [|split].
    + rewrite <- list_fmap_compose. by apply list_fmap_ext.
    + intros i key l Hi. by rewrite list_lookup_fmap, Hi.
    + intros l'. rewrite <- list_fmap_compose.
      intros ([key l] & -> & Hin)%list_elem_of_fmap. simpl.
      assert (l ∈ (tracks a).*2) as Hl.
      { apply list_elem_of_fmap. by exists (key, l). }
      destruct (mapping self !! l) as [target|] eqn:Hmap; simpl.
      * left. by exists l.
      * right. split; [|done].
        destruct Hcase as [?|Hnone]; [done|]. by destruct (Hnone l).
Qed.

(** No call changes the item. *)
Lemma file_after_call (self : LabelMapper) (current_file : item) :
  file_after (LabelMapper_call set_pop self current_file) = current_file.
Proof.
  unfold LabelMapper_call, getitem.
  destruct (keep_missing self), (current_file !! "annotation") as [[]|]; simpl; try done.
  by destruct (bool_decide _).
Qed.

(** C10: a call that fails for an unmapped label has asked the annotation for
    its labels and for nothing else: [rename_labels] was not called, and the
    item is as it was before the call. *)
Theorem LabelMapper_fails_before_renaming
    (self : LabelMapper) (current_file : item) (msg : string) :
  returned (LabelMapper_call set_pop self current_file) = Raise (ValueError msg) →
  keep_missing self = false
  ∧ calls (LabelMapper_call set_pop self current_file) = [Call_labels]
  ∧ file_after (LabelMapper_call set_pop self current_file) = current_file
  ∧ file_after (LabelMapper_call set_pop self current_file) !! "annotation"
    = current_file !! "annotation".
Proof.
  intros Hfail. rewrite file_after_call. repeat split.
  - unfold LabelMapper_call, getitem in Hfail.
    destruct (keep_missing self); [|done].
    by destruct (current_file !! "annotation") as [[]|].
  - unfold LabelMapper_call, getitem in *.
    destruct (keep_missing self), (current_file !! "annotation") as [[]|];
      simpl in *; try done.
    by destruct (bool_decide _).
Qed.
End mapper.

Lemma first_element_elem_of (s : gset string) : s ≠ ∅ → first_element s ∈ s.
Proof.
  intros Hne. unfold first_element. destruct (elements s) as [|x l] eqn:Hs.
  - apply elements_empty_inv in Hs. by apply leibniz_equiv in Hs.
  - simpl. apply elem_of_elements. rewrite Hs. apply list_elem_of_here.
Qed.

Lemma LabelMapper_call_spec_witness :
  ({[ "annotation" := PyAnnotation two_speakers ]} : item) !! "annotation"
  = Some (PyAnnotation two_speakers)
  ∧ ∃ label,
      unmapped {[ "A" := "M" ]} two_speakers label
      ∧ returned (LabelMapper_call first_element (mkLabelMapper {[ "A" := "M" ]} false)
                    {[ "annotation" := PyAnnotation two_speakers ]})
        = Raise (ValueError (no_mapping_msg label)).
Proof.
  assert (({[ "annotation" := PyAnnotation two_speakers ]} : item) !! "annotation"
          = Some (PyAnnotation two_speakers)) as Hann by reflexivity.
  split; [exact Hann|].
  destruct (LabelMapper_call_spec first_element (mkLabelMapper {[ "A" := "M" ]} false)
              {[ "annotation" := PyAnnotation two_speakers ]} two_speakers
              first_element_elem_of Hann) as [Hstrict _].
  apply Hstrict; [reflexivity|].
  exists "B". split; [|reflexivity].
  apply elem_of_cons; right. apply list_elem_of_here.
Defined.

Lemma LabelMapper_fails_before_renaming_witness :
  returned (LabelMapper_call first_element (mkLabelMapper {[ "A" := "M" ]} false)
              {[ "annotation" := PyAnnotation two_speakers ]})
  = Raise (ValueError (no_mapping_msg "B"))
  ∧ calls (LabelMapper_call first_element (mkLabelMapper {[ "A" := "M" ]} false)
             {[ "annotation" := PyAnnotation two_speakers ]})
    = [Call_labels].
Proof.
  assert (returned (LabelMapper_call first_element (mkLabelMapper {[ "A" := "M" ]} false)
                      {[ "annotation" := PyAnnotation two_speakers ]})
          = Raise (ValueError (no_mapping_msg "B"))) as Hfail by (vm_compute; reflexivity).
  split; [exact Hfail|].
  destruct (LabelMapper_fails_before_renaming first_element _ _ _ Hfail) as (_ & Hcalls & _).
  exact Hcalls.
Defined.

Example LabelMapper_renames :
  returned (LabelMapper_call first_element (mkLabelMapper {[ "A" := "M" ]} false)
              {[ "annotation" :=
                   PyAnnotation (mkAnnotation (Some "X")
                                   [(mkSegment 0%float 1%float, 0, "A")]) ]})
  = Ok (PyAnnotation (mkAnnotation (Some "X") [(mkSegment 0%float 1%float, 0, "M")])).
Proof. vm_compute. reflexivity. Qed.

End ItemFacts.


(** ** merge_dict_inplace: what a call keeps, and what it leaves on failure *)

Module MergeMore.
Import Merge PyDictFacts MergeFacts.

#[local] Arguments merge_value : simpl never.
#[local] Arguments merge_dict_inplace : simpl never.

Lemma set_keeps_keys (items : list (string * value)) k v k' :
  is_Some (PyDict.get (PyDict.set items k v) k')
  ↔ is_Some (PyDict.get items k') ∨ k' = k.
Proof.
  destruct (decide (k = k')) as [->|Hne].
  - rewrite get_set_eq. split; [by right|by eexists].
  - rewrite get_set_ne by done. split; [by left|]. by intros [?|?].
Qed.

Lemma set_same (items : list (string * value)) k v :
  PyDict.get items k = Some v → PyDict.set items k v = items.
Proof.
  induction items as [|[k' v'] items IH]; simpl; [done|].
  destruct (decide (k' = k)) as [->|Hne].
  - by intros [= ->].
  - intros Hget. by rewrite IH.
Qed.

(** One item handled: the keys of the dict are kept, and the only key that
    can come in is the key of the item. *)
Lemma merge_item_keys rec allow exc items k v :
  ∃ items', (merge_item rec allow exc (VDict items) k v).2 = VDict items'
            ∧ (∀ k', is_Some (PyDict.get items k') → is_Some (PyDict.get items' k'))
            ∧ (∀ k', is_Some (PyDict.get items' k') →
                     is_Some (PyDict.get items k') ∨ k' = k).
Proof.
  destruct v as [s|sub].
  - rewrite merge_item_scalar. destruct (PyDict.get items k) as [old|] eqn:Hget.
    + destruct (negb allow && exc); [|destruct allow]; simpl;
        eexists; (split; [done|]); split; intros k'; rewrite ?set_keeps_keys; tauto.
    + simpl. eexists; split; [done|]. split; intros k'; rewrite set_keeps_keys; tauto.
  - unfold merge_item. destruct (PyDict.get items k) as [v2|] eqn:Hget.
    + destruct (rec v2) as [e v2']; simpl.
      eexists; split; [done|]. split; intros k'; rewrite set_keeps_keys; [tauto|].
      intros [?| ->]; [by left|]. left. by rewrite Hget.
    + destruct (rec (VDict [])) as [e ?]; simpl. eexists; split; [done|]. tauto.
Qed.

Lemma merge_dict_keys target : ∀ items allow exc,
  ∃ items', (merge_dict_inplace (VDict items) target allow exc).2 = VDict items'
            ∧ (∀ k, is_Some (PyDict.get items k) → is_Some (PyDict.get items' k))
            ∧ (∀ k, is_Some (PyDict.get items' k) →
                    is_Some (PyDict.get items k) ∨ k ∈ PyDict.keys target).
Proof.
  induction target as [|[k v] rest IH]; intros items allow exc.
  - rewrite merge_nil. eexists; split; [done|]. split; [done|]. by left.
  - rewrite merge_cons.
    destruct (merge_item_keys (merge_value v true false) allow exc items k v)
      as (items1 & Hst & Hkept & Hnew).
    assert (∀ k', is_Some (PyDict.get items k') ∨ k' = k →
                  is_Some (PyDict.get items k') ∨ k' ∈ PyDict.keys ((k, v) :: rest)) as Hhead.
    { intros k' [?| ->]; [by left|]. right. apply list_elem_of_here. }
    destruct (merge_item _ _ _ _ _ _) as [[e|] d1]; simpl in Hst; subst d1.
    + eexists; split; [done|]. split; [done|]. intros k' Hk'. by apply Hhead, Hnew.
    + destruct (IH items1 allow exc) as (items' & Hst' & Hkept' & Hnew').
      eexists; split; [done|]. split.
      * intros k' Hk'. by apply Hkept', Hkept.
      * intros k' Hk'. destruct (Hnew' k' Hk') as [H1|Hin].
        -- by apply Hhead, Hnew.
        -- right. by apply elem_of_cons; right.
Qed.

(** X1: for a target that holds nothing but scalars: whatever the policy,
    and also when the call raises, the entries of [d] under the keys that
    [target] does not have are after the call what they were before it.
    (A nested item of [target] changes the dict object under its key, which
    [d] may hold under another key as well.) *)
Theorem merge_leaves_other_keys
    (items target : list (string * value)) (allow exc : bool) (k : string) :
  flat target → k ∉ PyDict.keys target →
  lookup (merge_dict_inplace (VDict items) target allow exc).2 k = PyDict.get items k.
Proof.
  intros _ Hk. destruct (merge_dict_other_keys target items allow exc)
    as (items' & -> & Hother). simpl. by apply Hother.
Qed.

Lemma merge_leaves_other_keys_witness :
  flat [("a", VScalar (SInt 2)); ("b", VScalar SNone)]
  ∧ ("n" ∉ PyDict.keys [("a", VScalar (SInt 2)); ("b", VScalar SNone)])
  ∧ lookup (merge_dict_inplace (VDict sample_d)
              [("a", VScalar (SInt 2)); ("b", VScalar SNone)]
              false true).2 "n"
    = Some (VDict [("x", VScalar (SInt 1))]).
Proof.
  assert (flat [("a", VScalar (SInt 2)); ("b", VScalar SNone)]) as Hflat.
  { repeat constructor; by eexists. }
  assert ("n" ∉ PyDict.keys [("a", VScalar (SInt 2)); ("b", VScalar SNone)])
    as Hk by (by apply (bool_decide_unpack _)).
  split; [exact Hflat|]. split; [exact Hk|].
  exact (merge_leaves_other_keys sample_d _ false true "n" Hflat Hk).
Defined.

(** X2: a call never removes a key of [d], and the keys it adds are keys of
    [target]; this holds under every policy, also when the call raises. *)
Theorem merge_keeps_keys
    (items target : list (string * value)) (allow exc : bool) (k : string) :
  (is_Some (PyDict.get items k) →
   is_Some (lookup (merge_dict_inplace (VDict items) target allow exc).2 k))
  ∧ (is_Some (lookup (merge_dict_inplace (VDict items) target allow exc).2 k) →
     is_Some (PyDict.get items k) ∨ k ∈ PyDict.keys target).
Proof.
  destruct (merge_dict_keys target items allow exc) as (items' & -> & Hkept & Hnew).
  simpl. split; [apply Hkept|apply Hnew].
Qed.

Lemma merge_keeps_keys_witness :
  is_Some (PyDict.get sample_d "n")
  ∧ is_Some (lookup (merge_dict_inplace (VDict sample_d)
                       [("n", VScalar (SInt 0))] true false).2 "n").
Proof.
  assert (is_Some (PyDict.get sample_d "n")) as Hn by (by eexists).
  split; [exact Hn|].
  exact (proj1 (merge_keeps_keys sample_d [("n", VScalar (SInt 0))] true false "n") Hn).
Defined.

(** X3: with [allow_overwrite] set, merging a target that holds no nested
    dict into a dict raises nothing and is [d.update(target)]: every item is
    assigned, in order. *)
Theorem merge_flat_is_update
    (items target : list (string * value)) (exc : bool) :
  flat target →
  merge_dict_inplace (VDict items) target true exc = (None, VDict (update items target)).
Proof. apply merge_flat. Qed.

Lemma merge_flat_is_update_witness :
  flat [("a", VScalar (SInt 5)); ("b", VScalar (SStr "s"))]
  ∧ merge_dict_inplace (VDict sample_d)
      [("a", VScalar (SInt 5)); ("b", VScalar (SStr "s"))] true true
    = (None, VDict [("a", VScalar (SInt 5)); ("n", VDict [("x", VScalar (SInt 1))]);
                    ("b", VScalar (SStr "s"))]).
Proof.
  assert (flat [("a", VScalar (SInt 5)); ("b", VScalar (SStr "s"))]) as Hflat.
  { repeat constructor; by eexists. }
  split; [exact Hflat|].
  exact (merge_flat_is_update sample_d _ true Hflat).
Defined.

Lemma add_missing_keeps target : ∀ (items : list (string * value)) k v,
  PyDict.get items k = Some v → PyDict.get (add_missing items target) k = Some v.
Proof.
  induction target as [|[k' v'] rest IH]; intros items k v Hget; [done|].
  unfold add_missing. simpl. fold (add_missing (if PyDict.has items k' then items
                                                else PyDict.set items k' v') rest).
  apply IH. unfold PyDict.has. destruct (PyDict.get items k') eqn:Hk'; [done|].
  rewrite get_set_ne; [done|]. intros ->. congruence.
Qed.

(** X4: with [allow_overwrite] and [overwrite_exception] both false, merging
    a target that holds no nested dict into a dict raises nothing and only
    adds: an item is assigned when its key is not in [d], and every entry
    that [d] had keeps its value. *)
Theorem merge_skip_only_adds (items target : list (string * value)) :
  flat target →
  merge_dict_inplace (VDict items) target false false
  = (None, VDict (add_missing items target))
  ∧ ∀ k v, PyDict.get items k = Some v →
           PyDict.get (add_missing items target) k = Some v.
Proof.
  intros Hflat. split; [|intros k v; apply add_missing_keeps].
  revert items. induction Hflat as [|[k v] rest [s Hs] _ IH]; intros items; [done|].
  simpl in Hs. subst v. rewrite merge_cons, merge_item_scalar.
  unfold add_missing. simpl. unfold PyDict.has.
  destruct (PyDict.get items k); simpl; apply IH.
Qed.

Lemma merge_skip_only_adds_witness :
  flat [("a", VScalar (SInt 5)); ("b", VScalar (SStr "s"))]
  ∧ merge_dict_inplace (VDict sample_d)
      [("a", VScalar (SInt 5)); ("b", VScalar (SStr "s"))] false false
    = (None, VDict [("a", VScalar (SInt 1)); ("n", VDict [("x", VScalar (SInt 1))]);
                    ("b", VScalar (SStr "s"))]).
Proof.
  assert (flat [("a", VScalar (SInt 5)); ("b", VScalar (SStr "s"))]) as Hflat.
  { repeat constructor; by eexists. }
  split; [exact Hflat|].
  exact (proj1 (merge_skip_only_adds sample_d _ Hflat)).
Defined.

(** Merging into a scalar, with the default policy, fails at the first item
    and leaves the scalar. *)
Lemma merge_into_scalar s k v rest :
  ∃ e, merge_dict_inplace (VScalar s) ((k, v) :: rest) true false = (Some e, VScalar s)
       ∧ (e = TypeError ∨ e = AttributeError).
Proof.
  rewrite merge_cons. destruct v as [s'|sub].
  - unfold merge_item. destruct s as [|n|str]; simpl.
    + exists TypeError. by split; [|left].
    + exists TypeError. by split; [|left].
    + rewrite andb_false_r, orb_true_r. simpl. exists TypeError. by split; [|left].
  - exists AttributeError. by split; [|right].
Qed.

(** X5: a nested dict of [target] that is not empty, under a key where [d]
    holds a scalar, is not put in its place.  A call that reaches this item,
    the items before it scalars that were handled without an exception, fails
    there with a TypeError or an AttributeError, under every policy; the
    items after it are not handled; [d] is left as the items before made it
    ([d.update] of them under [allow_overwrite], else their new keys added),
    with the scalar still at the key.  For a target that starts with the
    item, [d] is as it was. *)
Theorem merge_dict_onto_scalar_fails
    (items pre post sub items1 : list (string * value)) (k : string) (s : scalar)
    (allow exc : bool) :
  flat pre → k ∉ PyDict.keys pre →
  PyDict.get items k = Some (VScalar s) → sub ≠ [] →
  merge_dict_inplace (VDict items) pre allow exc = (None, VDict items1) →
  (∃ e, merge_dict_inplace (VDict items) (pre ++ (k, VDict sub) :: post) allow exc
        = (Some e, VDict items1)
        ∧ (e = TypeError ∨ e = AttributeError))
  ∧ items1 = (if allow then update items pre else add_missing items pre)
  ∧ PyDict.get items1 k = Some (VScalar s)
  ∧ (pre = [] → items1 = items).
Proof.
  intros Hflat Hk Hget Hsub Hpre.
  assert (PyDict.get items1 k = Some (VScalar s)) as Hget1.
  { by rewrite (state_before_key _ _ _ _ _ _ Hk Hpre). }
  split_and!; [|..|done|].
  - destruct sub as [|[k' v'] sub]; [done|].
    destruct (merge_into_scalar s k' v' sub) as (e & Hrec & He).
    exists e. split; [|done].
    rewrite (nested_item_step _ _ _ _ _ _ _ _ Hpre), Hget1, Hrec.
    by rewrite (set_same _ _ _ Hget1).
  - destruct allow.
    + rewrite (merge_flat _ _ _ Hflat) in Hpre. by injection Hpre as <-.
    + apply (flat_return_adds _ _ _ _ Hflat) in Hpre. by injection Hpre as <-.
  - intros ->. by injection Hpre as <-.
Qed.

Lemma merge_dict_onto_scalar_fails_witness :
  flat [("z", VScalar (SInt 0))]
  ∧ ("a" ∉ PyDict.keys [("z", VScalar (SInt 0))])
  ∧ PyDict.get sample_d "a" = Some (VScalar (SInt 1))
  ∧ merge_dict_inplace (VDict sample_d) [("z", VScalar (SInt 0))] false false
    = (None, VDict (sample_d ++ [("z", VScalar (SInt 0))]))
  ∧ ∃ e, merge_dict_inplace (VDict sample_d)
           ([("z", VScalar (SInt 0))] ++ ("a", VDict [("x", VScalar (SInt 2))])
            :: [("b", VScalar (SInt 3))])
           false false
         = (Some e, VDict (sample_d ++ [("z", VScalar (SInt 0))]))
         ∧ (e = TypeError ∨ e = AttributeError).
Proof.
  assert (flat [("z", VScalar (SInt 0))]) as Hflat.
  { repeat constructor; by eexists. }
  assert ("a" ∉ PyDict.keys [("z", VScalar (SInt 0))])
    as Hk by (by apply (bool_decide_unpack _)).
  assert (PyDict.get sample_d "a" = Some (VScalar (SInt 1))) as Hget by reflexivity.
  assert (merge_dict_inplace (VDict sample_d) [("z", VScalar (SInt 0))] false false
          = (None, VDict (sample_d ++ [("z", VScalar (SInt 0))]))) as Hpre by reflexivity.
  split; [exact Hflat|]. split; [exact Hk|]. split; [exact Hget|]. split; [exact Hpre|].
  assert ([("x", VScalar (SInt 2))] ≠ ([] : list (string * value))) as Hsub by done.
  exact (proj1 (merge_dict_onto_scalar_fails sample_d [("z", VScalar (SInt 0))]
                  [("b", VScalar (SInt 3))] [("x", VScalar (SInt 2))] _ "a" (SInt 1)
                  false false Hflat Hk Hget Hsub Hpre)).
Defined.

(** X6: a call is not undone when it fails.  Under the strict policy, when
    the items of [target] before a conflicting scalar item are scalars under
    new keys, the call raises the RuntimeError of the conflict and leaves [d]
    with those items assigned. *)
Theorem merge_failure_keeps_earlier_items
    (items pre post : list (string * value)) (k : string) (s : scalar) (old : value) :
  flat pre → NoDup (PyDict.keys pre) →
  (∀ key, key ∈ PyDict.keys pre → PyDict.get items key = None) →
  PyDict.get items k = Some old →
  merge_dict_inplace (VDict items) (pre ++ (k, VScalar s) :: post) false true
  = (Some (RuntimeError k old (VScalar s)), VDict (update items pre)).
Proof.
  intros Hflat Hnd Hfresh Hget.
  rewrite merge_app, (merge_fresh_flat pre items false true Hflat Hnd Hfresh).
  rewrite merge_cons, merge_item_scalar.
  rewrite update_other, Hget; [done|].
  intros Hin. apply Hfresh in Hin. congruence.
Qed.

Lemma merge_failure_keeps_earlier_items_witness :
  flat [("b", VScalar (SInt 2))]
  ∧ merge_dict_inplace (VDict sample_d)
      [("b", VScalar (SInt 2)); ("a", VScalar (SInt 3))] false true
    = (Some (RuntimeError "a" (VScalar (SInt 1)) (VScalar (SInt 3))),
       VDict [("a", VScalar (SInt 1)); ("n", VDict [("x", VScalar (SInt 1))]);
              ("b", VScalar (SInt 2))]).
Proof.
  assert (flat [("b", VScalar (SInt 2))]) as Hflat by (repeat constructor; by eexists).
  split; [exact Hflat|].
  apply (merge_failure_keeps_earlier_items sample_d [("b", VScalar (SInt 2))] []
           "a" (SInt 3) (VScalar (SInt 1)) Hflat).
  - by apply (bool_decide_unpack _).
  - intros key [->|Hin]%elem_of_cons; [reflexivity|]. by apply elem_of_nil in Hin.
  - reflexivity.
Defined.

End MergeMore.

(** ** The loaders: what the returned dict holds *)

Module LoaderMore.
Import Loaders PyDictFacts LoaderFacts.

#[local] Instance str_le_total : Total str_le.
Proof. intros x y. apply String.leb_total. Qed.

Section groups.
Context {R A : Type}.

Lemma set_absent (d : list (string * A)) k v :
  PyDict.get d k = None → PyDict.set d k v = d ++ [(k, v)].
Proof.
  induction d as [|[k' v'] d IH]; simpl; [done|].
  destruct (decide (k' = k)); [done|]. intros Hget. by rewrite IH.
Qed.

Lemma get_app_fresh (d d' : list (string * A)) k :
  PyDict.get d k = None → PyDict.get (d ++ d') k = PyDict.get d' k.
Proof.
  induction d as [|[k' v'] d IH]; simpl; [done|].
  destruct (decide (k' = k)); [done|]. apply IH.
Qed.

(** The loop over groups with distinct keys appends one entry per group. *)
Lemma foldl_groups_fresh (build : string → DataFrame R → A)
    (group : string → DataFrame R) (ks : list string) : ∀ acc,
  NoDup ks → (∀ u, u ∈ ks → PyDict.get acc u = None) →
  foldl (λ annotations '(uri, turns), PyDict.set annotations uri (build uri turns))
        acc ((λ u, (u, group u)) <$> ks)
  = acc ++ ((λ u, (u, build u (group u))) <$> ks).
Proof.
  induction ks as [|k ks IH]; intros acc Hnd Hfresh.
  - simpl. by rewrite app_nil_r.
  - apply NoDup_cons in Hnd as [Hk Hnd]. rewrite !fmap_cons. cbn [foldl].
    rewrite set_absent by apply Hfresh, list_elem_of_here.
    rewrite IH; [by rewrite <- app_assoc|done|].
    intros u Hu. rewrite get_app_fresh.
    + simpl. rewrite decide_False; [done|]. by intros ->.
    + apply Hfresh. by apply elem_of_cons; right.
Qed.

Lemma group_keys_NoDup (uri_of : R → option string) (rows : list R) :
  NoDup (group_keys uri_of rows).
Proof. unfold group_keys. rewrite merge_sort_Permutation. apply NoDup_remove_dups. Qed.

Lemma elem_of_group_keys' (uri_of : R → option string) (rows : list R) u :
  u ∈ group_keys uri_of rows ↔ ∃ i r, rows !! i = Some r ∧ uri_of r = Some u.
Proof. apply elem_of_group_keys. Qed.

(** The rows of a table, taken out with a test on the row, are the rows of
    the file that pass the test. *)
Lemma filter_read_csv (P : R → Prop) `{∀ r, Decision (P r)} (rows : list R) :
  (filter (λ ir, P ir.2) (read_csv rows)).*2 = filter P rows.
Proof.
  unfold read_csv. generalize (@id nat).
  assert (∀ f : nat → nat,
            (filter (λ ir : nat * R, P ir.2) (imap (λ i row, (f i, row)) rows)).*2
            = filter P rows) as Hgen.
  { induction rows as [|r rows IH]; intros f; [done|].
    rewrite imap_cons, !filter_cons. simpl.
    rewrite (imap_ext _ (λ i row, ((f ∘ S) i, row))) by done.
    destruct (decide (P r)); rewrite ?fmap_cons; simpl; by rewrite IH. }
  intros _. apply (Hgen id).
Qed.

Lemma sum_list_with_add {B : Type} (f g : B → nat) (l : list B) :
  sum_list_with (λ x, f x + g x) l = sum_list_with f l + sum_list_with g l.
Proof. induction l as [|x l IH]; simpl; [done|]. rewrite IH. lia. Qed.

Lemma sum_list_with_zero {B : Type} (f : B → nat) (l : list B) :
  (∀ x, x ∈ l → f x = 0) → sum_list_with f l = 0.
Proof.
  induction l as [|x l IH]; intros Hzero; simpl; [done|].
  rewrite (Hzero x) by apply list_elem_of_here.
  apply IH. intros y Hy. apply Hzero. by apply elem_of_cons; right.
Qed.

Lemma sum_indicator (ks : list string) (u : string) :
  NoDup ks → u ∈ ks →
  sum_list_with (λ k, if decide (k = u) then 1 else 0) ks = 1.
Proof.
  induction ks as [|k ks IH]; intros Hnd Hin; [by apply elem_of_nil in Hin|].
  apply NoDup_cons in Hnd as [Hk Hnd]. simpl.
  destruct (decide (k = u)) as [->|Hne].
  - rewrite sum_list_with_zero; [done|]. intros y Hy. rewrite decide_False; [done|].
    by intros ->.
  - apply elem_of_cons in Hin as [->|Hin]; [done|]. by rewrite IH.
Qed.

Lemma sum_list_with_ext {B : Type} (f g : B → nat) (l : list B) :
  (∀ x, x ∈ l → f x = g x) → sum_list_with f l = sum_list_with g l.
Proof.
  induction l as [|x l IH]; intros Hext; simpl; [done|].
  rewrite (Hext x) by apply list_elem_of_here. f_equal.
  apply IH. intros y Hy. apply Hext. by apply elem_of_cons; right.
Qed.

Lemma sum_list_with_fmap {B C : Type} (f : C → nat) (g : B → C) (l : list B) :
  sum_list_with f (g <$> l) = sum_list_with (λ x, f (g x)) l.
Proof. induction l as [|x l IH]; [done|]. rewrite fmap_cons. simpl. by rewrite IH. Qed.

(** Every row with a uri is in the group of its uri and in no other. *)
Lemma groups_partition (uri_of : R → option string) (Q : nat * R → Prop)
    `{∀ ir, Decision (Q ir)} (ks : list string) (data : list (nat * R)) :
  NoDup ks → (∀ ir u, ir ∈ data → uri_of ir.2 = Some u → u ∈ ks) →
  sum_list_with (λ u, length (filter Q (filter (λ ir, uri_of ir.2 = Some u) data))) ks
  = length (filter (λ ir, Q ir ∧ is_Some (uri_of ir.2)) data).
Proof.
  intros Hnd. induction data as [|x data IH]; intros Hks.
  - simpl. by apply sum_list_with_zero.
  - rewrite (filter_cons (λ ir, Q ir ∧ is_Some (uri_of ir.2))).
    rewrite (sum_list_with_ext _
               (λ u, (if decide (Q x ∧ uri_of x.2 = Some u) then 1 else 0)
                     + length (filter Q (filter (λ ir, uri_of ir.2 = Some u) data)))).
    2:{ intros u _. rewrite filter_cons.
        destruct (decide (uri_of x.2 = Some u)) as [Hu|Hu].
        - rewrite filter_cons. destruct (decide (Q x)) as [HQ|HQ].
          + by rewrite decide_True.
          + rewrite decide_False; [done|]. by intros [? _].
        - rewrite decide_False; [done|]. by intros [_ ?]. }
    rewrite sum_list_with_add, IH.
    2:{ intros ir u Hir. apply Hks. by apply elem_of_cons; right. }
    destruct (decide (Q x ∧ is_Some (uri_of x.2))) as [[HQ [u0 Hu0]]|Hno].
    + rewrite (sum_list_with_ext _ (λ k, if decide (k = u0) then 1 else 0)).
      * rewrite sum_indicator; [done..|]. eapply Hks; [apply list_elem_of_here|done].
      * intros u _. rewrite Hu0. destruct (decide (u = u0)) as [->|Hne].
        -- by rewrite decide_True.
        -- rewrite decide_False; [done|]. intros [_ [= ->]]. done.
    + rewrite sum_list_with_zero; [done|]. intros u _.
      rewrite decide_False; [done|]. intros [HQ Hu]. apply Hno. split; [done|by eexists].
Qed.
End groups.

Lemma filter_all {B : Type} (P : B → Prop) `{∀ x, Decision (P x)} (l : list B) :
  (∀ x, P x) → filter P l = l.
Proof.
  intros HP. induction l as [|x l IH]; [done|]. by rewrite filter_cons_True, IH.
Qed.

(** The loops over the rows of a group. *)
Lemma mdtm_annotation turns : ∀ a,
  foldl (λ annotation '(i, turn),
           let segment :=
             mkSegment (mdtm_start turn) (mdtm_start turn + mdtm_duration turn)%float in
           setitem annotation segment i (mdtm_speaker turn)) a turns
  = mkAnnotation (uri a) (tracks a ++ (mdtm_entry <$> turns)).
Proof.
  induction turns as [|[i turn] turns IH]; intros a; simpl.
  - destruct a. by rewrite app_nil_r.
  - rewrite IH. simpl. by rewrite <- app_assoc.
Qed.

Lemma lab_annotation turns : ∀ a,
  foldl (λ annotation '(i, turn),
           let segment := mkSegment (lab_start turn) (lab_end turn) in
           setitem annotation segment i (lab_label turn)) a turns
  = mkAnnotation (uri a) (tracks a ++ (lab_entry <$> turns)).
Proof.
  induction turns as [|[i turn] turns IH]; intros a; simpl.
  - destruct a. by rewrite app_nil_r.
  - rewrite IH. simpl. by rewrite <- app_assoc.
Qed.

(** The dicts that the loaders return, one entry per group. *)
Lemma load_mdtm_eq rows :
  load_mdtm rows
  = (λ u, (u, mkAnnotation (Some u)
                (mdtm_entry <$> filter (λ ir, Some (mdtm_uri ir.2) = Some u)
                                       (read_csv rows))))
      <$> group_keys (λ turn, Some (mdtm_uri turn)) rows.
Proof.
  etrans.
  - exact (foldl_groups_fresh
             (λ uri turns,
                foldl (λ annotation '(i, turn),
                         let segment :=
                           mkSegment (mdtm_start turn)
                                     (mdtm_start turn + mdtm_duration turn)%float in
                         setitem annotation segment i (mdtm_speaker turn))
                      (mkAnnotation (Some uri) []) (iterrows turns))
             (λ u, filter (λ ir, Some (mdtm_uri ir.2) = Some u) (read_csv rows))
             _ [] (group_keys_NoDup _ rows) (λ _ _, eq_refl)).
  - simpl. apply list_fmap_ext. intros _ u _. by rewrite mdtm_annotation.
Qed.

Lemma load_stm_eq rows :
  load_stm rows
  = (λ u, (u, mkAnnotation (Some u) (stm_entry <$> stm_group rows u)))
      <$> group_keys stm_uri rows.
Proof.
  etrans.
  - exact (foldl_groups_fresh
             (λ uri turns,
                foldl (λ annotation '(i, turn),
                         let segment := mkSegment (stm_start turn) (stm_end turn) in
                         setitem annotation segment i (stm_speaker turn))
                      (mkAnnotation (Some uri) []) (iterrows turns))
             (stm_group rows) _ [] (group_keys_NoDup _ rows) (λ _ _, eq_refl)).
  - simpl. apply list_fmap_ext. intros _ u _. by rewrite stm_annotation.
Qed.

Lemma load_rttm_eq rows keep_type :
  load_rttm rows keep_type
  = (λ u, (u, mkAnnotation (Some u)
                (rttm_entry <$> filter (λ ir, rttm_type ir.2 = keep_type)
                                       (rttm_group rows u))))
      <$> group_keys rttm_uri rows.
Proof.
  etrans.
  - exact (foldl_groups_fresh
             (λ uri turns,
                foldl (λ annotation '(i, turn),
                         if decide (rttm_type turn ≠ keep_type) then annotation
                         else
                           let segment :=
                             mkSegment (rttm_start turn)
                                       (rttm_start turn + rttm_duration turn)%float in
                           setitem annotation segment i (rttm_speaker turn))
                      (mkAnnotation (Some uri) []) (iterrows turns))
             (rttm_group rows) _ [] (group_keys_NoDup _ rows) (λ _ _, eq_refl)).
  - simpl. apply list_fmap_ext. intros _ u _. by rewrite rttm_annotation.
Qed.

Lemma load_uem_eq rows :
  load_uem rows
  = (λ u, (u, mkTimeline
                ((λ ir, uem_segment ir.2)
                   <$> filter (λ ir, uem_uri ir.2 = Some u) (read_csv rows))
                (Some u)))
      <$> group_keys uem_uri rows.
Proof.
  etrans.
  - exact (foldl_groups_fresh
             (λ uri parts,
                mkTimeline ((λ '(i, part), mkSegment (uem_start part) (uem_end part))
                              <$> iterrows parts) (Some uri))
             (λ u, filter (λ ir, uem_uri ir.2 = Some u) (read_csv rows))
             _ [] (group_keys_NoDup _ rows) (λ _ _, eq_refl)).
  - simpl. apply list_fmap_ext. intros _ u _. do 2 f_equal.
    apply list_fmap_ext. by intros _ [i part] _.
Qed.

Lemma keys_of_groups {B : Type} (f : string → B) (ks : list string) :
  PyDict.keys ((λ u, (u, f u)) <$> ks) = ks.
Proof.
  unfold PyDict.keys. rewrite <- list_fmap_compose.
  rewrite (list_fmap_ext _ id) by done. apply list_fmap_id.
Qed.

Lemma get_of_groups {B : Type} (f : string → B) (ks : list string) u :
  PyDict.get ((λ u, (u, f u)) <$> ks) u = if decide (u ∈ ks) then Some (f u) else None.
Proof.
  induction ks as [|k ks IH]; [done|]. rewrite fmap_cons. simpl.
  destruct (decide (k = u)) as [->|Hne].
  - by rewrite decide_True by apply list_elem_of_here.
  - rewrite IH. destruct (decide (u ∈ ks)) as [Hin|Hnin].
    + rewrite decide_True; [done|]. by apply elem_of_cons; right.
    + rewrite decide_False; [done|]. by intros [->|?]%elem_of_cons.
Qed.

(** X7: [load_mdtm] returns an annotation for a uri when a line of the file
    has this uri, and only then.  The annotation bears the uri; each of its
    entries stands for a line of the uri, with the segment from [start] to
    [start + duration], the speaker as label and the position of the line in
    the file as track, and every line of the uri has its entry. *)
Theorem load_mdtm_entries (rows : list mdtm_row) (u : string) :
  (is_Some (PyDict.get (load_mdtm rows) u)
   ↔ ∃ i r, rows !! i = Some r ∧ mdtm_uri r = u)
  ∧ ∀ ann, PyDict.get (load_mdtm rows) u = Some ann →
      uri ann = Some u
      ∧ ∀ segment i label,
          (segment, i, label) ∈ tracks ann
          ↔ ∃ r, rows !! i = Some r ∧ mdtm_uri r = u
                 ∧ segment = mkSegment (mdtm_start r)
                                       (mdtm_start r + mdtm_duration r)%float
                 ∧ label = mdtm_speaker r.
Proof.
  rewrite load_mdtm_eq, get_of_groups. split.
  - split.
    + case_decide as Hin; intros Hsome; [|by destruct Hsome].
      apply elem_of_group_keys' in Hin as (i & r & Hi & [= Hu]). by exists i, r.
    + intros (i & r & Hi & Hu). rewrite decide_True; [by eexists|].
      apply elem_of_group_keys'. exists i, r. split; [done|]. by rewrite Hu.
  - intros ann. case_decide; [|done]. intros [= <-]. simpl. split; [done|].
    intros segment i label. rewrite list_elem_of_fmap. split.
    + intros ([j r] & [= -> -> ->] & [Huri Hin]%list_elem_of_filter).
      simpl in Huri. injection Huri as Huri.
      apply elem_of_lookup_imap in Hin as (j' & r' & [= -> ->] & Hj'). by exists r'.
    + intros (r & Hi & Huri & -> & ->). exists (i, r). split; [done|].
      apply list_elem_of_filter. simpl. split; [by rewrite Huri|].
      by apply (elem_of_lookup_imap_2 (λ i row, (i, row))).
Qed.

Lemma load_mdtm_entries_witness :
  PyDict.get (load_mdtm two_recordings) "B"
  = Some (mkAnnotation (Some "B")
            [(mkSegment 0%float 1%float, 0, "bob"); (mkSegment 3%float 4%float, 2, "bob")])
  ∧ ((mkSegment 3%float 4%float, 2, "bob")
     ∈ [(mkSegment 0%float 1%float, 0, "bob"); (mkSegment 3%float 4%float, 2, "bob")]
     ↔ ∃ r, two_recordings !! 2 = Some r ∧ mdtm_uri r = "B"
            ∧ mkSegment 3%float 4%float
              = mkSegment (mdtm_start r) (mdtm_start r + mdtm_duration r)%float
            ∧ "bob" = mdtm_speaker r).
Proof.
  assert (PyDict.get (load_mdtm two_recordings) "B"
          = Some (mkAnnotation (Some "B")
                    [(mkSegment 0%float 1%float, 0, "bob");
                     (mkSegment 3%float 4%float, 2, "bob")])) as Hget by reflexivity.
  split; [exact Hget|].
  destruct (load_mdtm_entries two_recordings "B") as [_ Hentries].
  destruct (Hentries _ Hget) as [_ Htracks].
  exact (Htracks (mkSegment 3%float 4%float) 2 "bob").
Defined.

(** X8: [load_mdtm] loses no line and repeats none: the annotations it
    returns have together as many entries as the file has lines. *)
Theorem load_mdtm_no_loss (rows : list mdtm_row) :
  total_tracks (load_mdtm rows) = length rows.
Proof.
  rewrite load_mdtm_eq. unfold total_tracks. rewrite sum_list_with_fmap. simpl.
  rewrite (sum_list_with_ext _
             (λ u, length (filter (λ _, True)
                             (filter (λ ir, Some (mdtm_uri ir.2) = Some u)
                                     (read_csv rows))))).
  2:{ intros u _. by rewrite length_fmap, (filter_all (λ _, True)). }
  rewrite (groups_partition (λ turn, Some (mdtm_uri turn)) (λ _, True)
             (group_keys (λ turn, Some (mdtm_uri turn)) rows) (read_csv rows)).
  - rewrite filter_all; [apply length_imap|]. intros ir. split; [done|by eexists].
  - apply group_keys_NoDup.
  - intros [i r] u Hin Hu. apply elem_of_group_keys'.
    apply elem_of_lookup_imap in Hin as (j & r' & [= -> ->] & Hj). by exists j, r'.
Qed.

(** X9: [load_stm] has an entry for every line with a uri and for no other;
    [load_rttm] has an entry for every line with a uri and the kept type and
    for no other: the number of entries of the annotations returned is the
    number of those lines. *)
Theorem load_stm_rttm_entry_count :
  (∀ rows, total_tracks (load_stm rows)
           = length (filter (λ turn, is_Some (stm_uri turn)) rows))
  ∧ (∀ rows keep_type,
       total_tracks (load_rttm rows keep_type)
       = length (filter (rttm_kept keep_type) rows)).
Proof.
  split.
  - intros rows. rewrite load_stm_eq. unfold total_tracks, stm_group.
    rewrite sum_list_with_fmap. simpl.
    rewrite (sum_list_with_ext _
               (λ u, length (filter (λ _, True)
                               (filter (λ ir, stm_uri ir.2 = Some u) (read_csv rows))))).
    2:{ intros u _. by rewrite length_fmap, (filter_all (λ _, True)). }
    rewrite (groups_partition stm_uri (λ _, True) (group_keys stm_uri rows) (read_csv rows)).
    + rewrite <- (filter_read_csv (λ turn, is_Some (stm_uri turn)) rows), length_fmap.
      f_equal. apply list_filter_iff. intros ir. tauto.
    + apply group_keys_NoDup.
    + intros [i r] u Hin Hu. apply elem_of_group_keys'.
      apply elem_of_lookup_imap in Hin as (j & r' & [= -> ->] & Hj). by exists j, r'.
  - intros rows keep_type. rewrite load_rttm_eq. unfold total_tracks, rttm_group.
    rewrite sum_list_with_fmap. simpl.
    rewrite (sum_list_with_ext _
               (λ u, length (filter (λ ir, rttm_type ir.2 = keep_type)
                               (filter (λ ir, rttm_uri ir.2 = Some u) (read_csv rows))))).
    2:{ intros u _. by rewrite length_fmap. }
    rewrite (groups_partition rttm_uri (λ ir, rttm_type ir.2 = keep_type)
               (group_keys rttm_uri rows) (read_csv rows)).
    + by rewrite <- (filter_read_csv (rttm_kept keep_type) rows), length_fmap.
    + apply group_keys_NoDup.
    + intros [i r] u Hin Hu. apply elem_of_group_keys'.
      apply elem_of_lookup_imap in Hin as (j & r' & [= -> ->] & Hj). by exists j, r'.
Qed.

Lemma groups_keys_facts {R B : Type} (uri_of : R → option string) (rows : list R)
    (f : string → B) :
  let d := (λ u, (u, f u)) <$> group_keys uri_of rows in
  NoDup (PyDict.keys d) ∧ Sorted str_le (PyDict.keys d)
  ∧ ∀ u, u ∈ PyDict.keys d ↔ ∃ i r, rows !! i = Some r ∧ uri_of r = Some u.
Proof.
  simpl. rewrite keys_of_groups. split; [apply group_keys_NoDup|]. split.
  - unfold group_keys. apply (Sorted_merge_sort str_le).
  - intros u. apply elem_of_group_keys'.
Qed.

(** X10: the dict that [load_rttm], [load_stm], [load_mdtm] or [load_uem]
    returns has one key for each uri of the file and no other key, each key
    once, and its keys are in increasing order of strings. *)
Theorem loaders_keys :
  (∀ rows keep_type,
     NoDup (PyDict.keys (load_rttm rows keep_type))
     ∧ Sorted str_le (PyDict.keys (load_rttm rows keep_type))
     ∧ ∀ u, u ∈ PyDict.keys (load_rttm rows keep_type)
            ↔ ∃ i r, rows !! i = Some r ∧ rttm_uri r = Some u)
  ∧ (∀ rows,
       NoDup (PyDict.keys (load_stm rows))
       ∧ Sorted str_le (PyDict.keys (load_stm rows))
       ∧ ∀ u, u ∈ PyDict.keys (load_stm rows)
              ↔ ∃ i r, rows !! i = Some r ∧ stm_uri r = Some u)
  ∧ (∀ rows,
       NoDup (PyDict.keys (load_mdtm rows))
       ∧ Sorted str_le (PyDict.keys (load_mdtm rows))
       ∧ ∀ u, u ∈ PyDict.keys (load_mdtm rows)
              ↔ ∃ i r, rows !! i = Some r ∧ mdtm_uri r = u)
  ∧ (∀ rows,
       NoDup (PyDict.keys (load_uem rows))
       ∧ Sorted str_le (PyDict.keys (load_uem rows))
       ∧ ∀ u, u ∈ PyDict.keys (load_uem rows)
              ↔ ∃ i r, rows !! i = Some r ∧ uem_uri r = Some u).
Proof.
  split; [|split; [|split]].
  - intros rows keep_type. rewrite load_rttm_eq. apply groups_keys_facts.
  - intros rows. rewrite load_stm_eq. apply groups_keys_facts.
  - intros rows. rewrite load_mdtm_eq.
    destruct (groups_keys_facts (λ turn, Some (mdtm_uri turn)) rows
                (λ u, mkAnnotation (Some u)
                        (mdtm_entry <$> filter (λ ir, Some (mdtm_uri ir.2) = Some u)
                                               (read_csv rows))))
      as (Hnd & Hsorted & Hin).
    split; [done|]. split; [done|]. intros u. rewrite Hin.
    split; intros (i & r & Hi & Hu); exists i, r; (split; [done|]); congruence.
  - intros rows. rewrite load_uem_eq. apply groups_keys_facts.
Qed.

(** X11: [load_uem] returns a timeline for a uri when a line of the file has
    this uri, and only then; the timeline bears the uri and is built from the
    segments from [start] to [end] of the lines of the uri, in the order of
    the file. *)
Theorem load_uem_segments (rows : list uem_row) (u : string) :
  (is_Some (PyDict.get (load_uem rows) u)
   ↔ ∃ i r, rows !! i = Some r ∧ uem_uri r = Some u)
  ∧ ∀ timeline, PyDict.get (load_uem rows) u = Some timeline →
      timeline_uri timeline = Some u
      ∧ segments timeline
        = uem_segment <$> filter (λ part, uem_uri part = Some u) rows.
Proof.
  rewrite load_uem_eq, get_of_groups. split.
  - split.
    + case_decide as Hin; intros Hsome; [|by destruct Hsome].
      by apply elem_of_group_keys' in Hin.
    + intros Hrow. rewrite decide_True; [by eexists|]. by apply elem_of_group_keys'.
  - intros timeline. case_decide; [|done]. intros [= <-]. simpl. split; [done|].
    rewrite <- (filter_read_csv (λ part, uem_uri part = Some u) rows).
    by rewrite <- list_fmap_compose.
Qed.

Lemma load_uem_segments_witness :
  PyDict.get (load_uem two_files) "A"
  = Some (mkTimeline [mkSegment 0%float 10%float; mkSegment 20%float 30%float] (Some "A"))
  ∧ [mkSegment 0%float 10%float; mkSegment 20%float 30%float]
    = uem_segment <$> filter (λ part, uem_uri part = Some "A") two_files.
Proof.
  assert (PyDict.get (load_uem two_files) "A"
          = Some (mkTimeline [mkSegment 0%float 10%float; mkSegment 20%float 30%float]
                             (Some "A"))) as Hget by reflexivity.
  split; [exact Hget|].
  destruct (load_uem_segments two_files "A") as [_ Hsegments].
  exact (proj2 (Hsegments _ Hget)).
Defined.

(** X12: [load_lab] makes one entry per line, in order: the annotation bears
    the uri it was given, its tracks are 0, 1, 2 and so on up to the number of
    lines, and its entry at a position is the segment and the label of the
    line at that position, with the position as track. *)
Theorem load_lab_tracks (rows : list lab_row) (u : option string) :
  uri (load_lab rows u) = u
  ∧ track_of <$> tracks (load_lab rows u) = seq 0 (length rows)
  ∧ ∀ i, tracks (load_lab rows u) !! i
         = (λ turn, (mkSegment (lab_start turn) (lab_end turn), i, lab_label turn))
             <$> rows !! i.
Proof.
  unfold load_lab, iterrows. rewrite lab_annotation. simpl. split; [done|]. split.
  - rewrite <- list_fmap_compose. rewrite (list_fmap_ext (track_of ∘ lab_entry) fst) by done.
    apply read_csv_labels.
  - intros i. unfold read_csv. rewrite list_lookup_fmap, list_lookup_imap.
    by destruct (rows !! i).
Qed.

End LoaderMore.

(** ** load_lst: the entries *)

Module LstMore.
Import Lst LstFacts.

Lemma lstrip_head s c : head (chars (lstrip s)) = Some c → isspace c = false.
Proof.
  induction s as [|c' s IH]; simpl; [done|].
  destruct (isspace c') eqn:Hc'; [done|]. simpl. by intros [= <-].
Qed.

Lemma rstrip_head s c : head (chars (rstrip s)) = Some c → head (chars s) = Some c.
Proof.
  destruct s as [|c' s]; simpl; [done|].
  destruct (rstrip s); [|done]. by destruct (isspace c').
Qed.

Lemma rstrip_last s c : last (chars (rstrip s)) = Some c → isspace c = false.
Proof.
  induction s as [|c' s IH]; simpl; [done|].
  destruct (rstrip s) as [|c'' kept] eqn:Hkept.
  - destruct (isspace c') eqn:Hc'; simpl; [done|]. by intros [= <-].
  - simpl. simpl in IH. done.
Qed.

Lemma rstrip_blank s : blank s = true → rstrip s = EmptyString.
Proof.
  induction s as [|c s IH]; simpl; [done|].
  intros [Hc Hs]%andb_true_iff. by rewrite IH, Hc.
Qed.

(** Whitespace at the end of a string does not count for [rstrip]. *)
Lemma rstrip_app_blank s t : blank t = true → rstrip (s ++ t)%string = rstrip s.
Proof.
  intros Ht. induction s as [|c s IH].
  - rewrite append_nil_l. by apply rstrip_blank.
  - rewrite append_cons. simpl. by rewrite IH.
Qed.

Lemma chars_app s t : chars (s ++ t)%string = chars s ++ chars t.
Proof.
  induction s as [|c s IH]; [done|]. rewrite append_cons. simpl. by rewrite IH.
Qed.

Lemma chars_rstrip s c : c ∈ chars (rstrip s) → c ∈ chars s.
Proof.
  induction s as [|c' s IH]; simpl; [done|].
  destruct (rstrip s) as [|c'' kept].
  - destruct (isspace c'); simpl; [by intros ?%elem_of_nil|].
    intros [->|?%elem_of_nil]%elem_of_cons; [apply list_elem_of_here|done].
  - simpl. intros [->|Hin]%elem_of_cons; [apply list_elem_of_here|].
    apply elem_of_cons; right. by apply IH.
Qed.

Lemma chars_lstrip s c : c ∈ chars (lstrip s) → c ∈ chars s.
Proof.
  induction s as [|c' s IH]; simpl; [done|].
  destruct (isspace c'); [|done]. intros Hin. apply elem_of_cons; right. by apply IH.
Qed.

Lemma lstrip_app s t :
  lstrip (s ++ t)%string = if blank s then lstrip t else (lstrip s ++ t)%string.
Proof.
  induction s as [|c s IH]; [done|]. rewrite append_cons. simpl.
  destruct (isspace c); simpl; [done|]. by rewrite append_cons.
Qed.

(** A line has no newline but at its end. *)
Lemma readlines_shape text : ∀ line,
  line ∈ readlines text →
  ∃ body, (newline ∉ chars body) ∧ (line = body ∨ line = (body ++ nl)%string).
Proof.
  induction text as [|c text IH]; intros line; simpl; [by intros ?%elem_of_nil|].
  destruct (decide (c = newline)) as [->|Hc].
  - intros [->|Hin]%elem_of_cons; [|by apply IH].
    exists EmptyString. split; [apply not_elem_of_nil|by right].
  - destruct (readlines text) as [|first lines].
    + intros [->|?%elem_of_nil]%elem_of_cons; [|done].
      exists (String c EmptyString). split; [|by left].
      simpl. by intros [?|?%elem_of_nil]%elem_of_cons.
    + intros [->|Hin]%elem_of_cons.
      * destruct (IH first) as (body & Hbody & Hline); [apply list_elem_of_here|].
        exists (String c body). split.
        -- simpl. intros [?|?]%elem_of_cons; done.
        -- destruct Hline as [->| ->]; [by left|by right].
      * apply IH. by apply elem_of_cons; right.
Qed.

Lemma isspace_newline : isspace newline = true.
Proof. reflexivity. Qed.

(** X13: an entry that [load_lst] returns is trimmed: it does not start and
    does not end with a whitespace character, and it holds no newline. *)
Theorem load_lst_entries_trimmed (text entry : string) :
  entry ∈ load_lst text →
  (∀ c, head (chars entry) = Some c → isspace c = false)
  ∧ (∀ c, last (chars entry) = Some c → isspace c = false)
  ∧ newline ∉ chars entry.
Proof.
  unfold load_lst. intros (line & -> & Hline)%list_elem_of_fmap. unfold strip.
  split; [|split].
  - intros c Hc. by apply rstrip_head, lstrip_head in Hc.
  - intros c. apply rstrip_last.
  - destruct (readlines_shape text line Hline) as (body & Hbody & [->| ->]).
    + intros Hin. by apply chars_rstrip, chars_lstrip in Hin.
    + rewrite lstrip_app. destruct (blank body).
      * by intros ?%elem_of_nil.
      * rewrite rstrip_app_blank by done.
        intros Hin. by apply chars_rstrip, chars_lstrip in Hin.
Qed.

Lemma load_lst_entries_trimmed_witness :
  "a b"%string ∈ load_lst ("  a b " ++ nl ++ "c")%string
  ∧ newline ∉ chars "a b".
Proof.
  assert ("a b"%string ∈ load_lst ("  a b " ++ nl ++ "c")%string) as Hin
    by apply list_elem_of_here.
  split; [exact Hin|].
  exact (proj2 (proj2 (load_lst_entries_trimmed _ _ Hin))).
Defined.

Lemma readlines_nil text : readlines text = [] → text = EmptyString.
Proof. destruct text as [|c rest]; [done|]. by intros ?%readlines_not_nil. Qed.

(** X14: [load_lst] returns one entry for each newline of the file, and one
    more when the file does not end with a newline; for the empty file it
    returns the empty list. *)
Theorem load_lst_length (text : string) :
  length (load_lst text)
  = count_newlines text + (if unterminated text then 1 else 0).
Proof.
  unfold load_lst. rewrite length_fmap.
  induction text as [|c rest IH]; [done|].
  cbn [readlines count_newlines]. destruct (decide (c = newline)) as [->|Hc].
  - cbn [length]. rewrite IH. destruct rest; [done|]. simpl. lia.
  - destruct (readlines rest) as [|line lines] eqn:Hlines.
    + apply readlines_nil in Hlines as ->. simpl.
      by rewrite bool_decide_false.
    + cbn [length] in *. rewrite IH. destruct rest; [done|]. done.
Qed.

End LstMore.

(** ** load_mapping *)

Module MappingFacts.
Import Lst LstFacts Items Mapping PyDictFacts.

Lemma push_good token tokens :
  Forall (λ c, isspace c = false) (chars token) →
  Forall good_token tokens → Forall good_token (push token tokens).
Proof.
  intros Htoken Htokens. destruct token; [done|]. simpl. by constructor.
Qed.

Lemma split_from_good s :
  Forall (λ c, isspace c = false) (chars (split_from s).1)
  ∧ Forall good_token (split_from s).2.
Proof.
  induction s as [|c s [IH1 IH2]]; simpl; [by split|].
  destruct (split_from s) as [token tokens]. simpl in *.
  destruct (isspace c) eqn:Hc; simpl.
  - split; [done|]. by apply push_good.
  - split; [by constructor|done].
Qed.

(** The tokens of a string are not empty and hold no whitespace. *)
Lemma split_good s : Forall good_token (split s).
Proof.
  unfold split. pose proof (split_from_good s) as [H1 H2].
  destruct (split_from s) as [token tokens]. by apply push_good.
Qed.

Lemma split_empty : split EmptyString = [].
Proof. reflexivity. Qed.

Lemma not_has_pair_blank line : blank line = true → ¬ has_pair line.
Proof.
  intros Hblank%strip_empty_iff (key & value & others & Hsplit).
  by rewrite Hblank in Hsplit.
Qed.

(** The loop returns when every line has two tokens, and only then. *)
Lemma loop_returns lines : ∀ mapping,
  (∃ m, load_mapping_loop lines mapping = Ok m) ↔ Forall has_pair lines.
Proof.
  induction lines as [|line lines IH]; intros mapping; simpl.
  - split; [by constructor|by eexists].
  - rewrite Forall_cons. unfold has_pair at 1.
    destruct (split (strip line)) as [|key [|value others]].
    + split; [by intros [? ?]|]. by intros [(? & ? & ? & ?) _].
    + split; [by intros [? ?]|]. by intros [(? & ? & ? & ?) _].
    + rewrite IH. split; [|by intros [_ ?]]. intros H. split; [|done]. by eexists _, _, _.
Qed.

Lemma loop_raises lines : ∀ mapping e,
  load_mapping_loop lines mapping = Raise e → ∃ msg, e = ValueError msg.
Proof.
  induction lines as [|line lines IH]; intros mapping e; simpl; [done|].
  destruct (split (strip line)) as [|key [|value others]].
  - intros [= <-]. by eexists.
  - intros [= <-]. by eexists.
  - apply IH.
Qed.

(** X15: [load_mapping] returns a dict when every line of the file has at
    least two fields, and only then; otherwise it fails with a ValueError.
    So a blank line anywhere in the file, also at its end, makes the call
    fail. *)
Theorem load_mapping_returns_iff (text : string) :
  ((∃ m, load_mapping text = Ok m) ↔ Forall has_pair (readlines text))
  ∧ (∀ e, load_mapping text = Raise e → ∃ msg, e = ValueError msg)
  ∧ (∀ line, line ∈ readlines text → blank line = true →
       ∃ msg, load_mapping text = Raise (ValueError msg)).
Proof.
  unfold load_mapping. split; [apply loop_returns|]. split; [apply loop_raises|].
  intros line Hline Hblank.
  destruct (load_mapping_loop (readlines text) []) as [m|e] eqn:Hrun.
  - assert (Forall has_pair (readlines text)) as Hall.
    { apply (loop_returns _ []). by eexists. }
    rewrite Forall_forall in Hall. by destruct (not_has_pair_blank line Hblank (Hall _ Hline)).
  - destruct (loop_raises _ _ _ Hrun) as [msg ->]. by eexists.
Qed.

Lemma load_mapping_returns_iff_witness :
  nl ∈ readlines ("a x" ++ nl ++ nl)%string
  ∧ ∃ msg, load_mapping ("a x" ++ nl ++ nl)%string = Raise (ValueError msg).
Proof.
  assert (nl ∈ readlines ("a x" ++ nl ++ nl)%string) as Hline.
  { apply elem_of_cons; right. apply list_elem_of_here. }
  split; [exact Hline|].
  destruct (load_mapping_returns_iff ("a x" ++ nl ++ nl)%string) as (_ & _ & Hblank).
  exact (Hblank nl Hline eq_refl).
Defined.

Lemma loop_app pre : ∀ post mapping,
  load_mapping_loop (pre ++ post) mapping
  = match load_mapping_loop pre mapping with
    | Ok m => load_mapping_loop post m
    | Raise e => Raise e
    end.
Proof.
  induction pre as [|line pre IH]; intros post mapping; [done|].
  rewrite <- app_comm_cons. simpl.
  destruct (split (strip line)) as [|key [|value others]]; [done..|]. apply IH.
Qed.

Lemma loop_other_key lines key : ∀ mapping m,
  load_mapping_loop lines mapping = Ok m →
  (∀ line, line ∈ lines → head (split (strip line)) ≠ Some key) →
  PyDict.get m key = PyDict.get mapping key.
Proof.
  induction lines as [|line lines IH]; intros mapping m; simpl.
  - by intros [= ->].
  - intros Hrun Hother.
    pose proof (Hother line (list_elem_of_here _ _)) as Hline.
    destruct (split (strip line)) as [|k [|v others]]; [done..|].
    rewrite (IH _ _ Hrun).
    + apply get_set_ne. intros ->. by apply Hline.
    + intros l Hl. apply Hother. by apply elem_of_cons; right.
Qed.

(** X16: in the dict that [load_mapping] returns, the value of a key is the
    second field of the last line whose first field is the key; the fields of
    the line after the second are ignored. *)
Theorem load_mapping_last_wins
    (text : string) (pre post : list string) (line key value : string)
    (others : list string) (m : list (string * string)) :
  readlines text = pre ++ line :: post →
  split (strip line) = key :: value :: others →
  (∀ later, later ∈ post → head (split (strip later)) ≠ Some key) →
  load_mapping text = Ok m →
  PyDict.get m key = Some value.
Proof.
  unfold load_mapping. intros -> Hline Hpost. rewrite loop_app.
  destruct (load_mapping_loop pre []) as [m1|e]; [|done]. simpl. rewrite Hline.
  intros Hrun. rewrite (loop_other_key _ _ _ _ Hrun Hpost). apply get_set_eq.
Qed.

Lemma load_mapping_last_wins_witness :
  readlines sample_mapping
  = [("a x" ++ nl)%string; ("b y" ++ nl)%string] ++ (" a  z ignored" ++ nl)%string :: []
  ∧ PyDict.get [("a", "z"); ("b", "y")] "a" = Some "z"%string.
Proof.
  assert (readlines sample_mapping
          = [("a x" ++ nl)%string; ("b y" ++ nl)%string]
            ++ (" a  z ignored" ++ nl)%string :: []) as Hlines by reflexivity.
  split; [exact Hlines|].
  apply (load_mapping_last_wins sample_mapping _ _ _ "a" "z" ["ignored"%string] _ Hlines).
  - reflexivity.
  - by intros later ?%elem_of_nil.
  - reflexivity.
Defined.

Lemma elem_of_set {V : Type} (d : list (string * V)) key value k v :
  (k, v) ∈ PyDict.set d key value → (k, v) = (key, value) ∨ (k, v) ∈ d.
Proof.
  induction d as [|[k' v'] d IH]; simpl.
  - intros [?|?%elem_of_nil]%elem_of_cons; [by left|done].
  - destruct (decide (k' = key)).
    + intros [?|?]%elem_of_cons; [by left|]. right. by apply elem_of_cons; right.
    + intros [->|Hin]%elem_of_cons; [right; apply list_elem_of_here|].
      destruct (IH Hin) as [?|?]; [by left|]. right. by apply elem_of_cons; right.
Qed.

Lemma keys_set_NoDup {V : Type} (d : list (string * V)) key value :
  NoDup (PyDict.keys d) → NoDup (PyDict.keys (PyDict.set d key value)).
Proof.
  unfold PyDict.keys. induction d as [|[k' v'] d IH]; simpl.
  - intros _. apply NoDup_singleton.
  - rewrite !NoDup_cons. intros [Hk' Hd]. destruct (decide (k' = key)) as [->|Hne].
    + rewrite fmap_cons. by apply NoDup_cons.
    + rewrite fmap_cons. apply NoDup_cons. split; [|by apply IH].
      simpl. intros ([k v] & Heq & Hin)%list_elem_of_fmap. simpl in Heq. subst k.
      apply elem_of_set in Hin as [[= -> ->]|Hin]; [done|].
      apply Hk'. apply list_elem_of_fmap. by exists (k', v).
Qed.

Lemma loop_entries lines : ∀ mapping m,
  load_mapping_loop lines mapping = Ok m →
  (NoDup (PyDict.keys mapping) → NoDup (PyDict.keys m))
  ∧ ∀ k v, (k, v) ∈ m →
      (k, v) ∈ mapping
      ∨ ∃ line others, line ∈ lines ∧ split (strip line) = k :: v :: others.
Proof.
  induction lines as [|line lines IH]; intros mapping m; simpl.
  - intros [= ->]. split; [done|]. intros k v ?. by left.
  - destruct (split (strip line)) as [|key [|value others]] eqn:Hsplit; [done..|].
    intros Hrun. destruct (IH _ _ Hrun) as [Hnd Hentries]. split.
    + intros Hmapping. by apply Hnd, keys_set_NoDup.
    + intros k v Hkv. destruct (Hentries k v Hkv) as [Hset|(l & o & Hl & Ho)].
      * apply elem_of_set in Hset as [[= -> ->]|?]; [|by left].
        right. exists line, others. split; [apply list_elem_of_here|done].
      * right. exists l, o. split; [by apply elem_of_cons; right|done].
Qed.

(** X17: the dict that [load_mapping] returns has each key once, and each of
    its entries is made of the first two fields of a line of the file; so its
    keys and values are not empty and hold no whitespace. *)
Theorem load_mapping_entries (text : string) (m : list (string * string)) :
  load_mapping text = Ok m →
  NoDup (PyDict.keys m)
  ∧ ∀ k v, (k, v) ∈ m →
      (∃ line others, line ∈ readlines text ∧ split (strip line) = k :: v :: others)
      ∧ good_token k ∧ good_token v.
Proof.
  unfold load_mapping. intros Hrun. destruct (loop_entries _ _ _ Hrun) as [Hnd Hentries].
  split; [apply Hnd; constructor|].
  intros k v Hkv. destruct (Hentries k v Hkv) as [?%elem_of_nil|(line & others & Hl & Hs)];
    [done|].
  split; [by exists line, others|].
  pose proof (split_good (strip line)) as Hgood. rewrite Hs in Hgood.
  apply Forall_cons in Hgood as [Hk Hgood]. apply Forall_cons in Hgood as [Hv _]. done.
Qed.

Lemma load_mapping_entries_witness :
  load_mapping sample_mapping = Ok [("a", "z"); ("b", "y")]
  ∧ NoDup (PyDict.keys ([("a", "z"); ("b", "y")] : list (string * string))).
Proof.
  assert (load_mapping sample_mapping = Ok [("a", "z"); ("b", "y")]) as Hrun
    by reflexivity.
  split; [exact Hrun|].
  exact (proj1 (load_mapping_entries _ _ Hrun)).
Defined.

End MappingFacts.

(** ** Item records: errors, and what the identifiers tell apart *)

Module ItemMore.
Import Loaders Lst LstFacts Items.

(** X18: [get_label_identifier] returns when the item has a database that is
    a string, and only then, and returns the database, a bar and the label;
    without the key it fails with a KeyError, and with a database that is
    [None] or another value that is not a string, with a TypeError. *)
Theorem get_label_identifier_returns (label : string) (current_file : item) :
  (current_file !! "database" = None →
   get_label_identifier label current_file = Raise (KeyError "database"))
  ∧ (∀ database, current_file !! "database" = Some (PyStr database) →
       get_label_identifier label current_file
       = Ok ((database ++ String bar EmptyString) ++ label)%string)
  ∧ (∀ v, current_file !! "database" = Some v → (∀ database, v ≠ PyStr database) →
       get_label_identifier label current_file = Raise TypeError)
  ∧ (∀ identifier, get_label_identifier label current_file = Ok identifier →
       ∃ database, current_file !! "database" = Some (PyStr database)).
Proof.
  unfold get_label_identifier, getitem. repeat split.
  - by intros ->.
  - by intros database ->.
  - intros v -> Hv. destruct v; try done. by destruct (Hv s).
  - intros identifier. destruct (current_file !! "database") as [[]|]; try done.
    intros _. by eexists.
Qed.

Lemma get_label_identifier_returns_witness :
  ({[ "database" := PyStr "AMI" ]} : item) !! "database" = Some (PyStr "AMI")
  ∧ get_label_identifier "speaker1" {[ "database" := PyStr "AMI" ]} = Ok "AMI|speaker1".
Proof.
  split; [reflexivity|].
  destruct (get_label_identifier_returns "speaker1" {[ "database" := PyStr "AMI" ]})
    as (_ & Hstr & _).
  exact (Hstr "AMI" eq_refl).
Defined.

Lemma bar_separates (d1 d2 l1 l2 : string) :
  bar ∉ chars d1 → bar ∉ chars d2 →
  ((d1 ++ String bar EmptyString) ++ l1)%string
  = ((d2 ++ String bar EmptyString) ++ l2)%string →
  d1 = d2 ∧ l1 = l2.
Proof.
  revert d2. induction d1 as [|c1 d1 IH]; intros [|c2 d2] H1 H2.
  - rewrite !append_nil_l, !append_cons, !append_nil_l. by intros [= ->].
  - rewrite !append_nil_l, !append_cons, !append_nil_l. intros [= <- _].
    destruct H2. apply list_elem_of_here.
  - rewrite !append_nil_l, !append_cons, !append_nil_l. intros [= -> _].
    destruct H1. apply list_elem_of_here.
  - rewrite !append_cons. intros [= -> Hrest].
    destruct (IH d2) as [-> ->]; [| |done..].
    + intros Hin. apply H1. by apply elem_of_cons; right.
    + intros Hin. apply H2. by apply elem_of_cons; right.
Qed.

(** X19: label identifiers tell labels apart.  In one item, two labels with
    the same identifier are the same label; across items whose databases hold
    no bar, two labels with the same identifier are the same label of the
    same database. *)
Theorem label_identifier_unique
    (file1 file2 : item) (label1 label2 identifier : string) :
  get_label_identifier label1 file1 = Ok identifier →
  get_label_identifier label2 file2 = Ok identifier →
  (file1 !! "database" = file2 !! "database" → label1 = label2)
  ∧ (∀ d1 d2, file1 !! "database" = Some (PyStr d1) →
              file2 !! "database" = Some (PyStr d2) →
              bar ∉ chars d1 → bar ∉ chars d2 → d1 = d2 ∧ label1 = label2).
Proof.
  unfold get_label_identifier, getitem.
  destruct (file1 !! "database") as [[|d1| | | |]|]; try done.
  destruct (file2 !! "database") as [[|d2| | | |]|]; try done.
  simpl. intros [= <-] [= Heq]. split.
  - intros [= ->]. by apply (inj (String.append _)) in Heq.
  - intros ? ? [= <-] [= <-] H1 H2. by destruct (bar_separates d1 d2 label1 label2 H1 H2).
Qed.

Lemma label_identifier_unique_witness :
  get_label_identifier "speaker1" {[ "database" := PyStr "AMI" ]} = Ok "AMI|speaker1"
  ∧ get_label_identifier "speaker1" {[ "database" := PyStr "AMI"; "uri" := PyStr "X" ]}
    = Ok "AMI|speaker1"
  ∧ "AMI"%string = "AMI"%string ∧ "speaker1"%string = "speaker1"%string.
Proof.
  assert (get_label_identifier "speaker1" {[ "database" := PyStr "AMI" ]}
          = Ok "AMI|speaker1") as H1 by reflexivity.
  assert (get_label_identifier "speaker1"
            {[ "database" := PyStr "AMI"; "uri" := PyStr "X" ]}
          = Ok "AMI|speaker1") as H2 by reflexivity.
  split; [exact H1|]. split; [exact H2|].
  apply (proj2 (label_identifier_unique _ _ _ _ _ H1 H2) "AMI" "AMI");
    try reflexivity; by apply (bool_decide_unpack _).
Defined.

Section annotated.
Variable extent : Annotation → Segment float.

(** X20: [get_annotated] returns in three cases and in no other: the item
    has the key [annotated]; or it has not, and has a [duration] that is a
    number; or it has neither key, and has an annotation under the key
    [annotation].  An item with none of the three keys makes it fail with the
    KeyError of [annotation]; a [duration] that is not a number makes it fail
    with a TypeError, whatever the item has under [annotation]; and with
    neither [annotated] nor [duration], an [annotation] that is not an
    annotation makes it fail with an AttributeError. *)
Theorem get_annotated_returns_iff (current_file : item) :
  ((∃ r, get_annotated extent current_file = Ok r)
   ↔ is_Some (current_file !! "annotated")
     ∨ (current_file !! "annotated" = None
        ∧ ∃ duration, current_file !! "duration" = Some duration ∧ is_number duration)
     ∨ (current_file !! "annotated" = None ∧ current_file !! "duration" = None
        ∧ ∃ a, current_file !! "annotation" = Some (PyAnnotation a)))
  ∧ (current_file !! "annotated" = None → current_file !! "duration" = None →
     current_file !! "annotation" = None →
     get_annotated extent current_file = Raise (KeyError "annotation"))
  ∧ (∀ duration, current_file !! "annotated" = None →
          current_file !! "duration" = Some duration → ¬ is_number duration →
          get_annotated extent current_file = Raise TypeError)
  ∧ (∀ v, current_file !! "annotated" = None → current_file !! "duration" = None →
          current_file !! "annotation" = Some v → (∀ a, v ≠ PyAnnotation a) →
          get_annotated extent current_file = Raise AttributeError).
Proof.
  unfold get_annotated, has, getitem.
  destruct (current_file !! "annotated") as [annotated|] eqn:Ha.
  { rewrite bool_decide_true by (by eexists). simpl. repeat split; try done.
    - intros _. left. by eexists.
    - intros _. by eexists. }
  rewrite bool_decide_false by (by intros [? ?]).
  destruct (current_file !! "duration") as [duration|] eqn:Hd.
  { rewrite bool_decide_true by (by eexists).
    assert (is_number duration ∨ ¬ is_number duration) as [Hnum|Hnum].
    { destruct duration; try (right; by intros [[? ?]|[? ?]]).
      - left. right. by eexists.
      - left. left. by eexists. }
    - repeat split; try done.
      + intros _. right; left. split; [done|]. by eexists.
      + intros _. destruct Hnum as [[x ->]|[n ->]]; by eexists.
      + intros d _ [= <-] Hno. by destruct Hno.
    - assert (Timeline_of (mkSegment (PyInt 0) duration) = Raise TypeError) as Hfail.
      { destruct duration; try done.
        - destruct Hnum. right. by eexists.
        - destruct Hnum. left. by eexists. }
      rewrite Hfail. simpl. repeat split; try done.
      + by intros [? ?].
      + intros [[? ?]|[(_ & d & [= <-] & ?)|(_ & ? & _)]]; done. }
  rewrite bool_decide_false by (by intros [? ?]).
  destruct (current_file !! "annotation") as [v|] eqn:Hann; simpl.
  - repeat split; try done.
    + intros [r Hr]. right; right. repeat split. destruct v; try done. by eexists.
    + intros [[? ?]|[(_ & ? & ? & _)|(_ & _ & a & [= ->])]]; try done. by eexists.
    + intros v' _ _ [= <-] Hv. destruct v; try done. by destruct (Hv a).
  - repeat split; try done.
    + by intros [? ?].
    + intros [[? ?]|[(_ & ? & ? & _)|(_ & _ & ? & ?)]]; done.
Qed.
End annotated.

Lemma get_annotated_returns_iff_witness :
  (∅ : item) !! "annotated" = None
  ∧ get_annotated (λ _, mkSegment 0%float 0%float) ∅ = Raise (KeyError "annotation").
Proof.
  split; [reflexivity|].
  destruct (get_annotated_returns_iff (λ _, mkSegment 0%float 0%float) ∅)
    as (_ & Hnone & _).
  exact (Hnone eq_refl eq_refl eq_refl).
Defined.

Section mapper.
Variable set_pop : gset string → string.

(** X21: [keep_missing] only decides whether a call fails: what a strict
    mapper returns, the lenient mapper with the same mapping returns too; and
    a lenient mapper never fails with a ValueError. *)
Theorem LabelMapper_strict_then_lenient
    (mapping : gmap string string) (current_file : item) :
  (∀ v, returned (LabelMapper_call set_pop (mkLabelMapper mapping false) current_file)
        = Ok v →
        returned (LabelMapper_call set_pop (mkLabelMapper mapping true) current_file)
        = Ok v)
  ∧ (∀ msg, returned (LabelMapper_call set_pop (mkLabelMapper mapping true) current_file)
            ≠ Raise (ValueError msg)).
Proof.
  unfold LabelMapper_call, getitem. simpl.
  destruct (current_file !! "annotation") as [[]|]; simpl; try done.
  split; [|done]. intros v. by destruct (bool_decide _).
Qed.

(** X22: a lenient mapper whose mapping has no entry for any label of the
    annotation returns an annotation equal to the one of the item; so does,
    for every annotation, the lenient mapper with the empty mapping. *)
Theorem LabelMapper_lenient_identity
    (mapping : gmap string string) (current_file : item) (a : Annotation) :
  current_file !! "annotation" = Some (PyAnnotation a) →
  (∀ label, label ∈ (tracks a).*2 → mapping !! label = None) →
  returned (LabelMapper_call set_pop (mkLabelMapper mapping true) current_file)
  = Ok (PyAnnotation a).
Proof.
  intros Hann Hnone. unfold LabelMapper_call, getitem. simpl. rewrite Hann. simpl.
  destruct a as [u ts]. simpl in *. do 3 f_equal.
  rewrite <- (list_fmap_id ts) at 2. apply list_fmap_ext. intros i [key label] Hi. simpl.
  rewrite Hnone; [done|]. apply list_elem_of_fmap. exists (key, label). split; [done|].
  by eapply list_elem_of_lookup_2.
Qed.
End mapper.

Lemma LabelMapper_strict_then_lenient_witness :
  returned (LabelMapper_call first_element (mkLabelMapper {[ "A" := "M"; "B" := "N" ]} false)
              {[ "annotation" := PyAnnotation two_speakers ]})
  = Ok (PyAnnotation
          (mkAnnotation (Some "X")
             [(mkSegment 0%float 1%float, 0, "M"); (mkSegment 1%float 2%float, 1, "N")]))
  ∧ returned (LabelMapper_call first_element (mkLabelMapper {[ "A" := "M"; "B" := "N" ]} true)
                {[ "annotation" := PyAnnotation two_speakers ]})
    = Ok (PyAnnotation
            (mkAnnotation (Some "X")
               [(mkSegment 0%float 1%float, 0, "M"); (mkSegment 1%float 2%float, 1, "N")])).
Proof.
  assert (returned (LabelMapper_call first_element
                      (mkLabelMapper {[ "A" := "M"; "B" := "N" ]} false)
                      {[ "annotation" := PyAnnotation two_speakers ]})
          = Ok (PyAnnotation
                  (mkAnnotation (Some "X")
                     [(mkSegment 0%float 1%float, 0, "M");
                      (mkSegment 1%float 2%float, 1, "N")]))) as Hstrict
    by (vm_compute; reflexivity).
  split; [exact Hstrict|].
  exact (proj1 (LabelMapper_strict_then_lenient first_element _ _) _ Hstrict).
Defined.

Lemma LabelMapper_lenient_identity_witness :
  ({[ "annotation" := PyAnnotation two_speakers ]} : item) !! "annotation"
  = Some (PyAnnotation two_speakers)
  ∧ returned (LabelMapper_call first_element (mkLabelMapper ∅ true)
                {[ "annotation" := PyAnnotation two_speakers ]})
    = Ok (PyAnnotation two_speakers).
Proof.
  assert (({[ "annotation" := PyAnnotation two_speakers ]} : item) !! "annotation"
          = Some (PyAnnotation two_speakers)) as Hann by reflexivity.
  split; [exact Hann|].
  apply (LabelMapper_lenient_identity first_element ∅ _ two_speakers Hann).
  intros label _. apply lookup_empty.
Defined.

End ItemMore.
